(** * Tic-tac-toe: outcome evaluator, threat detector and move strategies

    A shallow embedding of [main.cpp]: the 3x3 board of [int] cells, the
    outcome evaluator [isGameOver], the threat detector [playerCanWin] and the
    three computer strategies [ai_random], [ai_smart] and [ai_genious],
    followed by the properties of the specification proved about them.

    Conventions of the embedding.
    - A C [int] is a [Z].  Every cell the program ever stores is [EMPTY],
      [USER] or [COMPUTER], so the sums of three cells computed by
      [playerCanWin] stay below 34 ([line_sums_fit]) and no 32-bit
      arithmetic can wrap.
    - [int board[3][3]] is a list of rows, each a list of cells.
    - [rand()] is an oracle [rnd : nat -> N]: its k-th call returns [rnd k].
      The number of calls made so far is the state threaded through the
      strategies.
    - The [do ... while] loop of [ai_random] has no bound in the source; it is
      modelled with fuel, [None] meaning that the fuel ran out.  Results
      about a strategy returning are stated as: some amount of fuel is
      enough, and more fuel gives the same result.
    - [cout] is the text printed so far, a [string]; [drawBoard],
      [nextPlayerMove] and [main] return what they print.
    - [cin] is an oracle too: the list of the column letter and row pairs
      that the successive [cin >> col_c >> row] extract.  What the program
      does once an extraction fails is not modelled.
    - The [while] loop of [main] is modelled with a bound on its turns; nine
      are proved to be enough. *)

From Stdlib Require Import Ascii String DecimalString.
From Stdlib Require Import ZArith List Bool Lia Btauto.
Import ListNotations.
Open Scope Z_scope.

(** ** Data model *)

(** [enum {EMPTY=0, USER=7, COMPUTER=11};] *)
Definition EMPTY : Z := 0.
Definition USER : Z := 7.
Definition COMPUTER : Z := 11.

(** [enum {IN_PROGRESS=0, USER_WON=USER, COMPUTER_WON=COMPUTER, DRAW};] *)
Definition IN_PROGRESS : Z := 0.
Definition USER_WON : Z := USER.
Definition COMPUTER_WON : Z := COMPUTER.
Definition DRAW : Z := COMPUTER_WON + 1.

(** [enum {RANDOM, SMART, GENIOUS};] *)
Definition RANDOM : Z := 0.
Definition SMART : Z := 1.
Definition GENIOUS : Z := 2.

(** [struct Cell { int row; int col; }] *)
Record Cell : Type := mkCell { row : Z; col : Z }.

Definition Cell_eqb (a b : Cell) : bool :=
  (row a =? row b) && (col a =? col b).

(** The value [playerCanWin] returns when no line can be completed. *)
Definition no_cell : Cell := mkCell (-1) (-1).

(** [int board[3][3]] *)
Definition Board : Type := list (list Z).

(** [board[r][c]] as an rvalue.  Every index the program uses lies in
    [0..2]; outside the array the model reads 0. *)
Definition get (board : Board) (r c : Z) : Z :=
  if (0 <=? r) && (0 <=? c)
  then nth (Z.to_nat c) (nth (Z.to_nat r) board []) 0
  else 0.

Fixpoint upd {A : Type} (n : nat) (x : A) (l : list A) {struct l}
  : list A :=
  match l, n with
  | [], _ => []
  | _ :: t, O => x :: t
  | h :: t, S n' => h :: upd n' x t
  end.

(** [board[r][c] = v].  Outside the array the model leaves the board as it
    is. *)
Definition set (board : Board) (r c : Z) (v : Z) : Board :=
  if (0 <=? r) && (0 <=? c)
  then upd (Z.to_nat r) (upd (Z.to_nat c) v (nth (Z.to_nat r) board [])) board
  else board.

(** [int board[3][3] = {};] *)
Definition empty_board : Board :=
  [[EMPTY; EMPTY; EMPTY]; [EMPTY; EMPTY; EMPTY]; [EMPTY; EMPTY; EMPTY]].

(** ** Loops *)

(** The values a loop [for (i = init; i <= last; i += step)] gives to [i]. *)
Fixpoint count_from (n : nat) (i step : Z) : list Z :=
  match n with
  | O => []
  | S n' => i :: count_from n' (i + step) step
  end.

Definition for_values (init last step : Z) : list Z :=
  if last <? init then []
  else count_from (Z.to_nat ((last - init) / step + 1)) init step.

(** [for (int i = 0; i < 3; i++)] *)
Definition upto3 : list Z := for_values 0 2 1.

(** A loop whose body may [return]: the first iteration that returns
    decides. *)
Fixpoint first_return {A : Type} (idx : list Z) (body : Z -> option A)
  : option A :=
  match idx with
  | [] => None
  | i :: rest =>
      match body i with
      | Some x => Some x
      | None => first_return rest body
      end
  end.

(** ** Outcome evaluator *)

(** The condition of the [if] inside the player loop of [isGameOver]: the
    four outer middle squares with their two neighbours, then the centre with
    its four axes. *)
Definition player_won (board : Board) (player : Z) : bool :=
  ((get board 0 1 =? player) && (get board 0 0 =? player)
     && (get board 0 2 =? player))
  || ((get board 1 0 =? player) && (get board 0 0 =? player)
        && (get board 2 0 =? player))
  || ((get board 2 1 =? player) && (get board 2 0 =? player)
        && (get board 2 2 =? player))
  || ((get board 1 2 =? player) && (get board 0 2 =? player)
        && (get board 2 2 =? player))
  || ((get board 1 1 =? player)
        && (((get board 0 1 =? player) && (get board 2 1 =? player))
            || ((get board 1 0 =? player) && (get board 1 2 =? player))
            || ((get board 0 0 =? player) && (get board 2 2 =? player))
            || ((get board 2 0 =? player) && (get board 0 2 =? player)))).

(** The nested loops that set [moreMoves]. *)
Definition more_moves (board : Board) : bool :=
  fold_left
    (fun moreMoves c =>
       fold_left
         (fun moreMoves r =>
            if get board r c =? EMPTY then true else moreMoves)
         upto3 moreMoves)
    upto3 false.

Definition isGameOver (board : Board) : Z :=
  match
    first_return (for_values USER COMPUTER (COMPUTER - USER))
      (fun player => if player_won board player then Some player else None)
  with
  | Some status => status
  | None => if more_moves board then IN_PROGRESS else DRAW
  end.

(** ** Threat detector *)

Definition playerCanWin (board : Board) (which : Z) : Cell :=
  let target := which * 2 in
  match
    first_return upto3 (fun r =>
      let sum := get board r 0 + get board r 1 + get board r 2 in
      if sum =? target
      then first_return upto3 (fun c =>
             if get board r c =? EMPTY then Some (mkCell r c) else None)
      else None)
  with
  | Some cell => cell
  | None =>
  match
    first_return upto3 (fun c =>
      let sum := get board 0 c + get board 1 c + get board 2 c in
      if sum =? target
      then first_return upto3 (fun r =>
             if get board r c =? EMPTY then Some (mkCell r c) else None)
      else None)
  with
  | Some cell => cell
  | None =>
      let sum_ltr := get board 0 0 + get board 1 1 + get board 2 2 in
      let ltr :=
        if sum_ltr =? target then
          if get board 0 0 =? EMPTY then Some (mkCell 0 0)
          else if get board 1 1 =? EMPTY then Some (mkCell 1 1)
          else if get board 2 2 =? EMPTY then Some (mkCell 2 2)
          else None
        else None in
      match ltr with
      | Some cell => cell
      | None =>
          let sum_rtl := get board 0 2 + get board 1 1 + get board 2 0 in
          let rtl :=
            if sum_rtl =? target then
              if get board 0 2 =? EMPTY then Some (mkCell 0 2)
              else if get board 1 1 =? EMPTY then Some (mkCell 1 1)
              else if get board 2 0 =? EMPTY then Some (mkCell 2 0)
              else None
            else None in
          match rtl with
          | Some cell => cell
          | None => mkCell (-1) (-1)
          end
      end
  end
  end.

Definition userCanWin (board : Board) : Cell := playerCanWin board USER.

Definition computerCanWin (board : Board) : Cell :=
  playerCanWin board COMPUTER.

(** ** Move strategies *)

Section Strategies.

(** The k-th value returned by [rand()]; the C library promises a value
    between 0 and [RAND_MAX]. *)
Variable rnd : nat -> N.

(** One call of [rand()] in state [s]: the value and the next state. *)
Definition rand (s : nat) : Z * nat := (Z.of_N (rnd s), S s).

(** The strategies return the board and the state of [rand()] they leave
    behind, or [None] when the sampling loop is still running after [fuel]
    iterations. *)
Fixpoint ai_random (fuel : nat) (board : Board) (s : nat)
  : option (Board * nat) :=
  match fuel with
  | O => None
  | S fuel' =>
      let (x, s1) := rand s in
      let r := Z.rem x 3 in
      let (y, s2) := rand s1 in
      let c := Z.rem y 3 in
      if negb (get board r c =? EMPTY)
      then ai_random fuel' board s2
      else Some (set board r c COMPUTER, s2)
  end.

Definition ai_smart (fuel : nat) (board : Board) (s : nat)
  : option (Board * nat) :=
  let chosen : option (Board * nat * Z * Z) :=
    if get board 1 1 =? EMPTY then Some (board, s, 1, 1)
    else if get board 0 0 =? EMPTY then Some (board, s, 0, 0)
    else if get board 0 2 =? EMPTY then Some (board, s, 0, 2)
    else if get board 2 0 =? EMPTY then Some (board, s, 2, 0)
    else if get board 2 2 =? EMPTY then Some (board, s, 2, 2)
    else
      match ai_random fuel board s with
      | Some (board', s') => Some (board', s', -1, -1)
      | None => None
      end in
  match chosen with
  | Some (board1, s1, r, c) =>
      if (0 <=? r) && (0 <=? c)
      then Some (set board1 r c COMPUTER, s1)
      else Some (board1, s1)
  | None => None
  end.

Definition ai_genious (fuel : nat) (board : Board) (s : nat)
  : option (Board * nat) :=
  if get board 1 1 =? EMPTY then Some (set board 1 1 COMPUTER, s)
  else
    let c := computerCanWin board in
    if (0 <=? row c) && (0 <=? col c)
    then Some (set board (row c) (col c) COMPUTER, s)
    else
      let c := userCanWin board in
      if (0 <=? row c) && (0 <=? col c)
      then Some (set board (row c) (col c) COMPUTER, s)
      else ai_smart fuel board s.

Definition nextComputerMove (strategy : Z) (fuel : nat) (board : Board)
  (s : nat) : option (Board * nat) :=
  if strategy =? SMART then ai_smart fuel board s
  else if strategy =? GENIOUS then ai_genious fuel board s
  else ai_random fuel board s.

End Strategies.

(** ** Rendering *)

(** What [cout << endl] appends. *)
Definition endl : string := String (ascii_of_nat 10) EmptyString.

(** What [cout << i] appends for an [int]. *)
Definition show_int (i : Z) : string := NilZero.string_of_int (Z.to_int i).

(** A loop whose body prints: the texts of the iterations, one after the
    other. *)
Definition print_for (idx : list Z) (body : Z -> string) : string :=
  fold_right (fun i printed => (body i ++ printed)%string) EmptyString idx.

(** The [switch] of [drawBoard]. *)
Definition draw_cell (v : Z) : string :=
  if v =? USER then ("| " ++ String "x" EmptyString ++ " ")%string
  else if v =? COMPUTER then ("| " ++ String "o" EmptyString ++ " ")%string
  else ("| " ++ String " " EmptyString ++ " ")%string.

(** The text [drawBoard] sends to [cout]. *)
Definition drawBoard (board : Board) : string :=
  ("  " ++ "  A   B   C  " ++ endl
   ++ "  " ++ "+---+---+---+" ++ endl
   ++ print_for upto3 (fun r =>
        show_int r ++ " "
        ++ print_for upto3 (fun c => draw_cell (get board r c))
        ++ "|" ++ endl
        ++ " " ++ " " ++ "+---+---+---+" ++ endl))%string.

(** ** The human's move *)

(** [cin] is an oracle: the list of the pairs that the successive
    [cin >> col_c >> row] extract.  What the program does once an extraction
    fails is not modelled; when the list runs out while the loop is still
    asking, the result is [None]. *)
Definition Entry : Type := (ascii * Z)%type.

Definition msg_column : string :=
  "! Invalid column value entered. Your choices are: [A, B, C] ".

Definition msg_row : string :=
  "! Invalid row value entered. Your choices are: [0, 1, 2] ".

Definition msg_taken : string :=
  "! That cell is not empty. Please try a different cell ".

(** The [do ... while] loop of [nextPlayerMove].  [col] keeps its value from
    one iteration to the next, as the local variable of the source does;
    [printed] is what has been sent to [cout] so far.  The result is the
    board, the entries not yet read and the text printed. *)
Fixpoint nextPlayerMove_loop (inputs : list Entry) (board : Board) (col : Z)
  (printed : string) : option (Board * list Entry * string) :=
  match inputs with
  | [] => None
  | (col_c, r) :: rest =>
      let col_valid := true in
      let row_valid := true in
      let '(col, col_valid, printed) :=
        if (col_c =? "a")%char || (col_c =? "A")%char
        then (0, col_valid, printed)
        else if (col_c =? "b")%char || (col_c =? "B")%char
        then (1, col_valid, printed)
        else if (col_c =? "c")%char || (col_c =? "C")%char
        then (2, col_valid, printed)
        else (col, false, (printed ++ msg_column ++ endl)%string) in
      let '(row_valid, printed) :=
        if (r <? 0) || (r >? 2)
        then (false, (printed ++ msg_row ++ endl)%string)
        else (row_valid, printed) in
      let '(col_valid, row_valid, printed) :=
        if row_valid && col_valid && negb (get board r col =? 0)
        then (false, false, (printed ++ msg_taken ++ endl)%string)
        else (col_valid, row_valid, printed) in
      if negb col_valid || negb row_valid
      then nextPlayerMove_loop rest board col printed
      else Some (set board r col USER, rest, printed)
  end.

(** [col] is not initialised in the source and is not read before a valid
    column letter has set it; the model starts it at 0. *)
Definition nextPlayerMove (inputs : list Entry) (board : Board)
  : option (Board * list Entry * string) :=
  nextPlayerMove_loop inputs board 0
    ("Your turn. Where would you like to move next?" ++ endl
     ++ "Type your move as two characters separated by a space (ex: A 1)"
     ++ endl)%string.

(** ** The game *)

(** The variables of [main], with the state of [rand()], the entries [cin]
    still holds and the text sent to [cout]. *)
Record Game : Type := mkGame {
  g_board : Board;
  gameStatus : Z;
  playerTurn : bool;
  g_rand : nat;
  g_inputs : list Entry;
  g_printed : string
}.

Section Main.

Variable rnd : nat -> N.

(** One turn of the [while] loop of [main]: draw the board, let the current
    player move, evaluate the board, swap the players. *)
Definition take_turn (fuel : nat) (g : Game) : option Game :=
  let printed := (g_printed g ++ drawBoard (g_board g))%string in
  if playerTurn g then
    match nextPlayerMove (g_inputs g) (g_board g) with
    | Some (board, inputs, text) =>
        Some (mkGame board (isGameOver board) false (g_rand g) inputs
                (printed ++ text)%string)
    | None => None
    end
  else
    match nextComputerMove rnd GENIOUS fuel (g_board g) (g_rand g) with
    | Some (board, s) =>
        Some (mkGame board (isGameOver board) true s (g_inputs g) printed)
    | None => None
    end.

(** The [while (gameStatus == IN_PROGRESS)] loop, for at most [turns]
    turns. *)
Fixpoint game_loop (turns fuel : nat) (g : Game) : option Game :=
  if gameStatus g =? IN_PROGRESS then
    match turns with
    | O => None
    | S turns' =>
        match take_turn fuel g with
        | Some g' => game_loop turns' fuel g'
        | None => None
        end
    end
  else Some g.

(** The [switch] that ends [main]. *)
Definition final_message (status : Z) : string :=
  if status =? USER_WON then "^.^ Congratulations! ^.^ You win! ^.^ "
  else if status =? COMPUTER_WON then "~.~ Sorry! ~.~ You lose! ~.~ "
  else if status =? DRAW then "O.o Whoa, that was close! O.o You tied! O.o "
  else "Hmm... something really went wrong here. Please let my programmer know. ".

(** The state in which [main] enters its loop: the board zeroed, the
    status [IN_PROGRESS], the first player drawn by [rand() % 2]. *)
Definition start (inputs : list Entry) : Game :=
  let (x, s) := rand rnd 0 in
  mkGame empty_board IN_PROGRESS (negb (Z.rem x 2 =? 0)) s inputs
         EmptyString.

(** [main]: the state in which it returns, with all it has printed. *)
Definition main (turns fuel : nat) (inputs : list Entry) : option Game :=
  match game_loop turns fuel (start inputs) with
  | Some g =>
      Some (mkGame (g_board g) (gameStatus g) (playerTurn g) (g_rand g)
              (g_inputs g)
              (g_printed g
               ++ "Game over! Here's what the final board looked like:"
               ++ endl ++ endl
               ++ drawBoard (g_board g)
               ++ endl
               ++ final_message (gameStatus g) ++ endl
               ++ endl)%string)
  | None => None
  end.

End Main.

(** ** Notions used by the specification *)

(** A board has the shape of [int[3][3]]. *)
Definition is3x3 (board : Board) : Prop :=
  ((length board =? 3)%nat
   && forallb (fun r => (length r =? 3)%nat) board) = true.

Definition cell_valueb (v : Z) : bool :=
  (v =? EMPTY) || (v =? USER) || (v =? COMPUTER).

(** A well-formed board: 3x3, every cell [EMPTY], [USER] or [COMPUTER]. *)
Definition wf_board (board : Board) : Prop :=
  ((length board =? 3)%nat
   && forallb (fun r => (length r =? 3)%nat && forallb cell_valueb r) board)
  = true.

Definition is_player (p : Z) : Prop := p = USER \/ p = COMPUTER.

Definition in_range (r c : Z) : Prop := 0 <= r < 3 /\ 0 <= c < 3.

Definition has_empty (board : Board) : Prop :=
  exists r c, in_range r c /\ get board r c = EMPTY.

Definition full (board : Board) : Prop :=
  forall r c, in_range r c -> get board r c <> EMPTY.

(** [after] is [before] with the cell (r, c) turned into [COMPUTER] and
    every other cell as it was. *)
Definition claims_cell (before after : Board) (r c : Z) : Prop :=
  is3x3 after
  /\ get after r c = COMPUTER
  /\ forall r' c', in_range r' c' -> (r', c') <> (r, c) ->
                   get after r' c' = get before r' c'.

(** A line is the list of its three coordinates, in the order in which
    [playerCanWin] looks for its empty cell. *)
Definition Line : Type := list (Z * Z).

Definition row_line (r : Z) : Line := [(r, 0); (r, 1); (r, 2)].
Definition col_line (c : Z) : Line := [(0, c); (1, c); (2, c)].
Definition diag_ltr : Line := [(0, 0); (1, 1); (2, 2)].
Definition diag_rtl : Line := [(0, 2); (1, 1); (2, 0)].

(** The 8 winning lines in scan order: rows, columns, the two diagonals. *)
Definition lines : list Line :=
  map row_line upto3 ++ map col_line upto3 ++ [diag_ltr; diag_rtl].

Definition at_cell (board : Board) (rc : Z * Z) : Z :=
  get board (fst rc) (snd rc).

(** [player] owns all three cells of the line. *)
Definition owns (board : Board) (player : Z) (l : Line) : bool :=
  forallb (fun rc => at_cell board rc =? player) l.

Definition has_line (board : Board) (player : Z) : bool :=
  existsb (owns board player) lines.

(** How many cells of the line hold [v]. *)
Definition count_cells (board : Board) (v : Z) (l : Line) : nat :=
  length (filter (fun rc => at_cell board rc =? v) l).

(** The line holds exactly two cells of [player] and exactly one Empty
    cell. *)
Definition winnable (board : Board) (player : Z) (l : Line) : bool :=
  (count_cells board player l =? 2)%nat
  && (count_cells board EMPTY l =? 1)%nat.

Definition empty_cell_of (board : Board) (l : Line) : option (Z * Z) :=
  find (fun rc => at_cell board rc =? EMPTY) l.

(** The threat detector as the specification words it: the Empty cell of
    the first line, in scan order, with two cells of [player] and one Empty
    cell; nothing when no line qualifies. *)
Definition find_winning_cell (board : Board) (player : Z)
  : option (Z * Z) :=
  match find (winnable board player) lines with
  | Some l => empty_cell_of board l
  | None => None
  end.

(** A coordinate, or the absence of one, as a [Cell]. *)
Definition to_Cell (o : option (Z * Z)) : Cell :=
  match o with
  | Some (r, c) => mkCell r c
  | None => no_cell
  end.

(** The Genius policy as the specification words it: center, then win-now,
    then block, then Smart. *)
Definition genius_policy (rnd : nat -> N) (fuel : nat) (board : Board)
  (s : nat) : option (Board * nat) :=
  if get board 1 1 =? EMPTY then Some (set board 1 1 COMPUTER, s)
  else
    match find_winning_cell board COMPUTER with
    | Some (r, c) => Some (set board r c COMPUTER, s)
    | None =>
        match find_winning_cell board USER with
        | Some (r, c) => Some (set board r c COMPUTER, s)
        | None => ai_smart rnd fuel board s
        end
    end.

(** The cell drawn by the k-th iteration of the sampling loop of
    [ai_random] when the loop is entered in state [s]. *)
Definition sample (rnd : nat -> N) (s k : nat) : Z * Z :=
  (Z.rem (Z.of_N (rnd (s + 2 * k)%nat)) 3,
   Z.rem (Z.of_N (rnd (s + 2 * k + 1)%nat)) 3).

(** From state [s] on, the random source draws every cell of the board at
    some iteration: what is left of "uniformly random" once probabilities are
    put aside. *)
Definition fair (rnd : nat -> N) (s : nat) : Prop :=
  forall r c, in_range r c -> exists k, sample rnd s k = (r, c).

(** The nine coordinates of the board. *)
Definition cells9 : list (Z * Z) := list_prod upto3 upto3.

(** All sequences of [n] samples.  Under uniform sampling each of them is
    as likely as any other. *)
Fixpoint draws (n : nat) : list (list (Z * Z)) :=
  match n with
  | O => [[]]
  | S n' => flat_map (fun rc => map (cons rc) (draws n')) cells9
  end.

Definition occupied_cell (board : Board) (rc : Z * Z) : bool :=
  negb (at_cell board rc =? EMPTY).

(** The sampling loop is still running after the samples [d]: each of them
    fell on an occupied cell. *)
Definition still_running (board : Board) (d : list (Z * Z)) : bool :=
  forallb (occupied_cell board) d.

(** The number of cells of the board that are not Empty. *)
Definition occupied (board : Board) : nat :=
  length (filter (occupied_cell board) cells9).

(** All 19683 well-formed boards. *)
Definition cell_values : list Z := [EMPTY; USER; COMPUTER].

Definition all_rows : list (list Z) :=
  flat_map (fun a =>
    flat_map (fun b => map (fun c => [a; b; c]) cell_values) cell_values)
    cell_values.

Definition all_boards : list Board :=
  flat_map (fun r0 =>
    flat_map (fun r1 => map (fun r2 => [r0; r1; r2]) all_rows) all_rows)
    all_rows.

(** On [board], for [player], the code's detector and the specification's
    return the same cell. *)
Definition detectors_agree (board : Board) (player : Z) : bool :=
  Cell_eqb (playerCanWin board player)
           (to_Cell (find_winning_cell board player)).

(** On [board], writing [player] into the cell that the specification's
    detector finds for [player] gives [player] the whole of the line on which
    the cell was found. *)
Definition completes_line (board : Board) (player : Z) : bool :=
  match find (winnable board player) lines with
  | Some l =>
      match empty_cell_of board l with
      | Some (r, c) => owns (set board r c player) player l
      | None => false
      end
  | None => true
  end.

(** The sum of the three cells of a line, as [playerCanWin] computes it. *)
Definition line_sum (board : Board) (l : Line) : Z :=
  fold_right (fun rc acc => at_cell board rc + acc) 0 l.

(** Every line sum of the board fits an [int] with room to spare. *)
Definition sums_fit (board : Board) : bool :=
  forallb (fun l => (0 <=? line_sum board l) && (line_sum board l <=? 33))
          lines.

(** The character [drawBoard] shows for a cell value. *)
Definition glyph (v : Z) : ascii :=
  if v =? USER then "x"%char
  else if v =? COMPUTER then "o"%char
  else " "%char.

(** Where, in the text of [drawBoard], the cell (r, c) is shown, and where
    the labels of row r and of column c are. *)
Definition glyph_at (r c : Z) : nat := Z.to_nat (36 + 32 * r + 4 * c).
Definition row_label_at (r : Z) : nat := Z.to_nat (32 + 32 * r).
Definition col_label_at (c : Z) : nat := Z.to_nat (4 + 4 * c).

(** [after] is [before] with the cell (r, c) set to [v] and every other
    cell as it was. *)
Definition marks_cell (before after : Board) (r c v : Z) : Prop :=
  is3x3 after
  /\ get after r c = v
  /\ forall r' c', in_range r' c' -> (r', c') <> (r, c) ->
                   get after r' c' = get before r' c'.

(** The column a letter stands for. *)
Definition column_of (col_c : ascii) : option Z :=
  if (col_c =? "a")%char || (col_c =? "A")%char then Some 0
  else if (col_c =? "b")%char || (col_c =? "B")%char then Some 1
  else if (col_c =? "c")%char || (col_c =? "C")%char then Some 2
  else None.

Definition row_ok (r : Z) : bool := (0 <=? r) && (r <=? 2).

(** An entry the human may play on [board]: a column letter, a row between
    0 and 2, an Empty cell. *)
Definition valid_entry (board : Board) (e : Entry) : bool :=
  match column_of (fst e) with
  | Some c => row_ok (snd e) && (get board (snd e) c =? EMPTY)
  | None => false
  end.

(** What [nextPlayerMove] answers to an entry it rejects. *)
Definition complaints (board : Board) (e : Entry) : string :=
  match column_of (fst e) with
  | None =>
      if row_ok (snd e) then (msg_column ++ endl)%string
      else (msg_column ++ endl ++ msg_row ++ endl)%string
  | Some c =>
      if row_ok (snd e) then
        if get board (snd e) c =? EMPTY then EmptyString
        else (msg_taken ++ endl)%string
      else (msg_row ++ endl)%string
  end.

(** What [nextPlayerMove] answers to a run of rejected entries. *)
Definition answers (board : Board) (es : list Entry) : string :=
  fold_right (fun e printed => (complaints board e ++ printed)%string)
             EmptyString es.

Definition prompt : string :=
  ("Your turn. Where would you like to move next?" ++ endl
   ++ "Type your move as two characters separated by a space (ex: A 1)"
   ++ endl)%string.

Definition coord_eqb (a b : Z * Z) : bool :=
  (fst a =? fst b) && (snd a =? snd b).

(** The sampling loop of [ai_random], fed the samples [d], claims the cell
    [rc]. *)
Definition hits (board : Board) (rc : Z * Z) (d : list (Z * Z)) : bool :=
  match empty_cell_of board d with
  | Some x => coord_eqb x rc
  | None => false
  end.

(** How many of the 9^n sequences of [n] samples make the loop claim
    [rc]. *)
Definition chances (board : Board) (n : nat) (rc : Z * Z) : nat :=
  length (filter (hits board rc) (draws n)).

(** The Empty cells of the board, and the boards a player can reach by
    claiming one of them. *)
Definition empty_cells (board : Board) : list (Z * Z) :=
  filter (fun rc => at_cell board rc =? EMPTY) cells9.

Definition moves_of (board : Board) (player : Z) : list Board :=
  map (fun rc => set board (fst rc) (snd rc) player) (empty_cells board).

(** The boards [ai_genious] can return: its one choice when it decides
    without sampling, any Empty cell claimed when it falls back on
    [ai_random]. *)
Definition genius_moves (board : Board) : list Board :=
  match ai_genious (fun _ => 0%N) 0 board 0 with
  | Some (board', _) => [board']
  | None => moves_of board COMPUTER
  end.

(** A position: the board and whether the human is to move. *)
Definition Position : Type := (Board * bool)%type.

Definition next_positions (p : Position) : list Position :=
  if isGameOver (fst p) =? IN_PROGRESS then
    map (fun b => (b, negb (snd p)))
        (if snd p then moves_of (fst p) USER else genius_moves (fst p))
  else [].

(** The positions [k] turns after [p], whatever the human enters and
    whatever [rand()] returns. *)
Fixpoint plays (k : nat) (p : Position) : list Position :=
  match k with
  | O => [p]
  | S k' => flat_map (plays k') (next_positions p)
  end.

(** The positions of all games that start on the empty board with the given
    player to move, each with the number of turns played to reach it, up to
    9 turns. *)
Definition positions (human_first : bool) : list (nat * Position) :=
  flat_map (fun k => map (pair k) (plays k (empty_board, human_first)))
           (seq 0 10).

Definition count_value (board : Board) (v : Z) : Z :=
  Z.of_nat (length (filter (fun rc => at_cell board rc =? v) cells9)).

Definition wf_boardb (board : Board) : bool :=
  (length board =? 3)%nat
  && forallb (fun r => (length r =? 3)%nat && forallb cell_valueb r) board.

Definition position_of (g : Game) : Position := (g_board g, playerTurn g).

(** [in_game rnd g0 k g]: the loop of [main], entered in state [g0], is in
    state [g] after [k] turns. *)
Inductive in_game (rnd : nat -> N) (g0 : Game) : nat -> Game -> Prop :=
| in_game_start : in_game rnd g0 0 g0
| in_game_turn (k : nat) (g : Game) (fuel : nat) (g' : Game) :
    in_game rnd g0 k g ->
    gameStatus g = IN_PROGRESS ->
    take_turn rnd fuel g = Some g' ->
    in_game rnd g0 (S k) g'.

Fixpoint list_eqb {A : Type} (eq : A -> A -> bool) (l1 l2 : list A)
  : bool :=
  match l1, l2 with
  | [], [] => true
  | x :: l1', y :: l2' => eq x y && list_eqb eq l1' l2'
  | _, _ => false
  end.

Definition board_eqb : Board -> Board -> bool := list_eqb (list_eqb Z.eqb).

(** The two players have moved in turn: the one to move has played as many
    cells as the other, or one fewer. *)
Definition balanced (p : Position) : bool :=
  let u := count_value (fst p) USER in
  let c := count_value (fst p) COMPUTER in
  if snd p then (u <=? c) && (c <=? u + 1) else (c <=? u) && (u <=? c + 1).

(** What holds of a position [k] turns into a game. *)
Definition sound_position (kp : nat * Position) : bool :=
  let b := fst (snd kp) in
  wf_boardb b
  && balanced (snd kp)
  && (count_value b USER + count_value b COMPUTER =? Z.of_nat (fst kp))
  && negb (has_line b USER && has_line b COMPUTER).

(** With the computer to move in a game in progress: if a cell completes a
    line of the computer, [ai_genious] claims it and wins; otherwise, if a
    cell completes a line of the human, [ai_genious] claims it. *)
Definition genius_sharp (kp : nat * Position) : bool :=
  let b := fst (snd kp) in
  if snd (snd kp) then true
  else if negb (isGameOver b =? IN_PROGRESS) then true
  else
    match find_winning_cell b COMPUTER with
    | Some (r, c) =>
        forallb (fun b' => board_eqb b' (set b r c COMPUTER)
                           && (isGameOver b' =? COMPUTER_WON))
                (genius_moves b)
    | None =>
        match find_winning_cell b USER with
        | Some (r, c) =>
            forallb (fun b' => board_eqb b' (set b r c COMPUTER))
                    (genius_moves b)
        | None => true
        end
    end.

Definition human_has_not_won (kp : nat * Position) : bool :=
  negb (isGameOver (fst (snd kp)) =? USER_WON).

(** Whichever Empty cell of [board] a player claims, the board stays
    well-formed and has one Empty cell fewer. *)
Definition moves_keep_shape (board : Board) : bool :=
  forallb (fun player =>
    forallb (fun b' =>
               wf_boardb b'
               && (count_value b' EMPTY =? count_value board EMPTY - 1)
               && (count_value b' player =? count_value board player + 1))
            (moves_of board player))
    [USER; COMPUTER].

(** Boards and random sources used as concrete inputs below. *)
Definition board_user_row0 : Board :=
  [[USER; USER; EMPTY]; [EMPTY; EMPTY; EMPTY]; [EMPTY; EMPTY; EMPTY]].

Definition board_user_row0_center : Board :=
  [[USER; USER; EMPTY]; [EMPTY; COMPUTER; EMPTY]; [EMPTY; EMPTY; EMPTY]].

Definition board_computer_row0 : Board :=
  [[COMPUTER; COMPUTER; EMPTY]; [EMPTY; EMPTY; EMPTY]; [EMPTY; EMPTY; EMPTY]].

Definition board_computer_row0_center : Board :=
  [[COMPUTER; COMPUTER; EMPTY]; [EMPTY; USER; EMPTY]; [USER; EMPTY; EMPTY]].

Definition board_both_lines : Board :=
  [[USER; USER; USER]; [COMPUTER; COMPUTER; COMPUTER]; [EMPTY; EMPTY; EMPTY]].

Definition board_user_diag : Board :=
  [[USER; COMPUTER; EMPTY]; [COMPUTER; USER; EMPTY]; [EMPTY; EMPTY; USER]].

Definition board_drawn : Board :=
  [[USER; COMPUTER; USER]; [USER; COMPUTER; COMPUTER]; [COMPUTER; USER; USER]].

Definition board_corners_taken : Board :=
  [[USER; USER; COMPUTER]; [EMPTY; COMPUTER; EMPTY]; [USER; EMPTY; COMPUTER]].

(** A source whose k-th sample is the cell (k / 3 mod 3, k mod 3). *)
Definition rnd_sweep (k : nat) : N :=
  if Nat.even k then N.of_nat (Nat.div2 k / 3) else N.of_nat (Nat.div2 k).

(** A source that always returns 1: the coin flip of [main] gives the human
    the first move. *)
Definition rnd_one (k : nat) : N := 1%N.

(** Entries with which the human, moving first, beats [ai_genious]: two
    opposite corners, then a third corner that threatens two lines at
    once. *)
Definition fork_inputs : list Entry :=
  [("A"%char, 0); ("C"%char, 2); ("A"%char, 2); ("A"%char, 1)].

(** Entries after which the computer, moving first, can complete a
    diagonal. *)
Definition careless_inputs : list Entry := [("A"%char, 0); ("B"%char, 0)].

(** A source that always returns 0, so that every sample is (0, 0). *)
Definition rnd_stuck (k : nat) : N := 0%N.

(** * Properties *)

(** ** The board *)

Ltac split_length :=
  repeat match goal with
    | H : (_ && _) = true |- _ => apply andb_true_iff in H; destruct H
    | H : (length ?l =? _)%nat = true |- _ =>
        apply Nat.eqb_eq in H;
        repeat (destruct l as [| ? l]; simpl in H; try discriminate H);
        clear H
    end.

Lemma is3x3_inv (board : Board) :
  is3x3 board ->
  exists a0 a1 a2 b0 b1 b2 c0 c1 c2,
    board = [[a0; a1; a2]; [b0; b1; b2]; [c0; c1; c2]].
Proof.
  unfold is3x3; intros H.
  split_length. simpl in *. split_length.
  repeat eexists.
Qed.

Lemma wf_board_is3x3 (board : Board) : wf_board board -> is3x3 board.
Proof.
  unfold wf_board, is3x3; intros H.
  apply andb_true_iff in H; destruct H as [Hl Hr].
  rewrite Hl; simpl.
  rewrite forallb_forall in *; intros r Hin.
  apply Hr in Hin. apply andb_true_iff in Hin; tauto.
Qed.

Lemma cell_valueb_cases (v : Z) :
  cell_valueb v = true -> v = EMPTY \/ v = USER \/ v = COMPUTER.
Proof.
  unfold cell_valueb; intros H.
  repeat (apply orb_true_iff in H; destruct H as [H | H]);
    apply Z.eqb_eq in H; auto.
Qed.

Lemma wf_row_in_all_rows (a b c : Z) :
  cell_valueb a = true -> cell_valueb b = true -> cell_valueb c = true ->
  In [a; b; c] all_rows.
Proof.
  intros Ha Hb Hc.
  destruct (cell_valueb_cases a Ha) as [-> | [-> | ->]];
    destruct (cell_valueb_cases b Hb) as [-> | [-> | ->]];
    destruct (cell_valueb_cases c Hc) as [-> | [-> | ->]];
    vm_compute; tauto.
Qed.

(** Every well-formed board is one of [all_boards]. *)
Lemma wf_board_in_all_boards (board : Board) :
  wf_board board -> In board all_boards.
Proof.
  intros H.
  destruct (is3x3_inv board (wf_board_is3x3 board H))
    as (a0 & a1 & a2 & b0 & b1 & b2 & c0 & c1 & c2 & ->).
  unfold wf_board in H; simpl in H.
  repeat (apply andb_true_iff in H; destruct H as [? H]).
  repeat match goal with
    | K : (_ && _) = true |- _ => apply andb_true_iff in K; destruct K
    end.
  unfold all_boards.
  apply in_flat_map; exists [a0; a1; a2]; split;
    [now apply wf_row_in_all_rows |].
  cbv beta.
  apply in_flat_map; exists [b0; b1; b2]; split;
    [now apply wf_row_in_all_rows |].
  apply in_map_iff; exists [c0; c1; c2]; split;
    [reflexivity | now apply wf_row_in_all_rows].
Qed.

(** A property checked on all of [all_boards] holds of every well-formed
    board. *)
Lemma by_enumeration (check : Board -> bool) :
  forallb check all_boards = true ->
  forall board, wf_board board -> check board = true.
Proof.
  intros Hall board Hwf.
  rewrite forallb_forall in Hall.
  apply Hall, wf_board_in_all_boards, Hwf.
Qed.

Lemma in_range_cases (r c : Z) :
  in_range r c ->
  (r = 0 \/ r = 1 \/ r = 2) /\ (c = 0 \/ c = 1 \/ c = 2).
Proof. unfold in_range; lia. Qed.

Ltac case_range H :=
  let Hr := fresh in
  let Hc := fresh in
  destruct (in_range_cases _ _ H) as [Hr Hc];
  destruct Hr as [-> | [-> | ->]]; destruct Hc as [-> | [-> | ->]].

Ltac as_cells board H :=
  let a0 := fresh "a0" in
  let a1 := fresh "a1" in
  let a2 := fresh "a2" in
  let b0 := fresh "b0" in
  let b1 := fresh "b1" in
  let b2 := fresh "b2" in
  let c0 := fresh "c0" in
  let c1 := fresh "c1" in
  let c2 := fresh "c2" in
  destruct (is3x3_inv board H)
    as (a0 & a1 & a2 & b0 & b1 & b2 & c0 & c1 & c2 & ->).

Lemma set_is3x3 (board : Board) (r c v : Z) :
  is3x3 board -> is3x3 (set board r c v).
Proof.
  intros H. as_cells board H. clear H.
  unfold set. destruct ((0 <=? r) && (0 <=? c)); [| reflexivity].
  destruct (Z.to_nat r) as [| [| [| n]]];
    destruct (Z.to_nat c) as [| [| [| m]]]; reflexivity.
Qed.

Lemma get_set_same (board : Board) (r c v : Z) :
  is3x3 board -> in_range r c -> get (set board r c v) r c = v.
Proof.
  intros H Hrc. as_cells board H. case_range Hrc; reflexivity.
Qed.

Lemma get_set_other (board : Board) (r c v r' c' : Z) :
  is3x3 board -> in_range r c -> in_range r' c' -> (r', c') <> (r, c) ->
  get (set board r c v) r' c' = get board r' c'.
Proof.
  intros H Hrc Hrc' Hne. as_cells board H.
  case_range Hrc; case_range Hrc'; try reflexivity; now contradiction Hne.
Qed.

(** Writing [COMPUTER] into a cell of the board changes that cell and
    nothing else. *)
Lemma set_claims_cell (board : Board) (r c : Z) :
  is3x3 board -> in_range r c ->
  claims_cell board (set board r c COMPUTER) r c.
Proof.
  intros H Hrc. repeat split.
  - now apply set_is3x3.
  - now apply get_set_same.
  - intros r' c' Hrc' Hne. now apply get_set_other.
Qed.

(** ** The loops, unrolled *)

Lemma upto3_eq : upto3 = [0; 1; 2].
Proof. reflexivity. Qed.

(** The player loop of [isGameOver] visits [USER], then [COMPUTER], and
    stops. *)
Lemma player_loop_values :
  for_values USER COMPUTER (COMPUTER - USER) = [USER; COMPUTER].
Proof. reflexivity. Qed.

Lemma lines_eq :
  lines =
  [row_line 0; row_line 1; row_line 2;
   col_line 0; col_line 1; col_line 2; diag_ltr; diag_rtl].
Proof. reflexivity. Qed.

Lemma in_lines_in_range (l : Line) (r c : Z) :
  In l lines -> In (r, c) l -> in_range r c.
Proof.
  rewrite lines_eq. intros Hl Hrc.
  repeat (destruct Hl as [<- | Hl]; [| try contradiction]);
    repeat (destruct Hrc as [Hrc | Hrc]; [| try contradiction]);
    inversion Hrc; unfold in_range; lia.
Qed.

(** ** The outcome evaluator *)

(** The middle-square test of the code is true exactly when the player owns
    one of the 8 lines. *)
Lemma player_won_has_line (board : Board) (player : Z) :
  player_won board player = has_line board player.
Proof.
  unfold player_won, has_line. rewrite lines_eq.
  unfold owns, row_line, col_line, diag_ltr, diag_rtl, at_cell.
  cbn [existsb forallb fst snd].
  generalize (get board 0 0 =? player) (get board 0 1 =? player)
    (get board 0 2 =? player) (get board 1 0 =? player)
    (get board 1 1 =? player) (get board 1 2 =? player)
    (get board 2 0 =? player) (get board 2 1 =? player)
    (get board 2 2 =? player).
  intros. btauto.
Qed.

Lemma owns_has_line (board : Board) (player : Z) (l : Line) :
  In l lines -> owns board player l = true -> has_line board player = true.
Proof.
  intros Hin Hown. unfold has_line.
  apply existsb_exists. now exists l.
Qed.

Lemma no_line_has_line (board : Board) (player : Z) :
  (forall l, In l lines -> owns board player l = false) ->
  has_line board player = false.
Proof.
  intros Hno. destruct (has_line board player) eqn:E; [| reflexivity].
  apply existsb_exists in E. destruct E as (l & Hin & Hown).
  rewrite (Hno l Hin) in Hown. discriminate.
Qed.

Lemma more_moves_has_empty (board : Board) :
  more_moves board = true -> has_empty board.
Proof.
  unfold more_moves. rewrite upto3_eq. cbn [fold_left]. intros H.
  repeat match type of H with
    | context [if get board ?r ?c =? EMPTY then _ else _] =>
        destruct (Z.eqb_spec (get board r c) EMPTY) as [e | _];
        [ exists r, c; split; [unfold in_range; lia | exact e] |]
    end.
  discriminate H.
Qed.

Lemma has_empty_more_moves (board : Board) :
  has_empty board -> more_moves board = true.
Proof.
  intros (r & c & Hrc & E).
  unfold more_moves. rewrite upto3_eq. cbn [fold_left].
  apply Z.eqb_eq in E.
  case_range Hrc; rewrite E;
    repeat match goal with
      | |- context [if ?x =? EMPTY then _ else _] => destruct (x =? EMPTY)
      end; reflexivity.
Qed.

Lemma full_more_moves (board : Board) :
  full board -> more_moves board = false.
Proof.
  intros Hfull. destruct (more_moves board) eqn:E; [| reflexivity].
  destruct (more_moves_has_empty board E) as (r & c & Hrc & He).
  now apply Hfull in He.
Qed.

(** [isGameOver] as a decision list over the lines owned and the cells
    left. *)
Lemma isGameOver_cases (board : Board) :
  isGameOver board =
  if has_line board USER then USER_WON
  else if has_line board COMPUTER then COMPUTER_WON
  else if more_moves board then IN_PROGRESS
  else DRAW.
Proof.
  unfold isGameOver. rewrite player_loop_values. cbn [first_return].
  rewrite !player_won_has_line.
  destruct (has_line board USER), (has_line board COMPUTER); reflexivity.
Qed.

(** ** The threat detector *)

Lemma Cell_eqb_eq (a b : Cell) : Cell_eqb a b = true -> a = b.
Proof.
  destruct a as [ra ca], b as [rb cb]. unfold Cell_eqb; simpl.
  intros H. apply andb_true_iff in H. destruct H as [Hr Hc].
  apply Z.eqb_eq in Hr, Hc. now subst.
Qed.

(** The prime sums of the code and the cell counts of the specification
    single out the same cell, on each of the 19683 well-formed boards. *)
Lemma detectors_agree_everywhere :
  forallb (fun board =>
             detectors_agree board USER && detectors_agree board COMPUTER)
          all_boards = true.
Proof. vm_compute. reflexivity. Qed.

(** On a well-formed board the sums computed by [playerCanWin] lie between
    0 and 33, and its targets are 14 and 22: no [int] overflows. *)
Lemma line_sums_fit (board : Board) (l : Line) :
  wf_board board -> In l lines -> 0 <= line_sum board l <= 33.
Proof.
  intros Hwf Hin.
  assert (Hall : forallb sums_fit all_boards = true)
    by (vm_compute; reflexivity).
  pose proof (by_enumeration _ Hall board Hwf) as H.
  unfold sums_fit in H. rewrite forallb_forall in H.
  specialize (H l Hin). apply andb_true_iff in H.
  destruct H as [H0 H33]. apply Z.leb_le in H0, H33. lia.
Qed.

Lemma playerCanWin_find_winning_cell (board : Board) (player : Z) :
  wf_board board -> is_player player ->
  playerCanWin board player = to_Cell (find_winning_cell board player).
Proof.
  intros Hwf Hp.
  pose proof (by_enumeration _ detectors_agree_everywhere board Hwf) as H.
  apply andb_true_iff in H. destruct H as [Hu Hc].
  destruct Hp as [-> | ->]; now apply Cell_eqb_eq.
Qed.

(** What [find] returns is the first element that passes the test. *)
Lemma find_first {A : Type} (f : A -> bool) (l : list A) (x : A) :
  find f l = Some x ->
  exists before after,
    l = before ++ x :: after
    /\ f x = true
    /\ forall y, In y before -> f y = false.
Proof.
  induction l as [| a l IH]; simpl; [discriminate |].
  destruct (f a) eqn:Fa.
  - intros [= ->]. exists [], l. repeat split; [assumption |].
    intros y [].
  - intros H. destruct (IH H) as (before & after & -> & Fx & Hb).
    exists (a :: before), after. repeat split; [assumption |].
    intros y [<- | Hy]; [assumption | now apply Hb].
Qed.

Lemma find_none_filter {A : Type} (f : A -> bool) (l : list A) :
  find f l = None -> filter f l = [].
Proof.
  induction l as [| a l IH]; simpl; [reflexivity |].
  destruct (f a); [discriminate | exact IH].
Qed.

(** A line with exactly one Empty cell has an Empty cell to return. *)
Lemma winnable_empty_cell (board : Board) (player : Z) (l : Line) :
  winnable board player l = true ->
  exists rc, empty_cell_of board l = Some rc.
Proof.
  unfold winnable, count_cells, empty_cell_of. intros H.
  apply andb_true_iff in H. destruct H as [_ H]. apply Nat.eqb_eq in H.
  destruct (find (fun rc => at_cell board rc =? EMPTY) l) as [rc |] eqn:F.
  - now exists rc.
  - apply find_none_filter in F. rewrite F in H. discriminate H.
Qed.

(** The cell found by the specification's detector: the Empty cell of the
    first winnable line in scan order. *)
Lemma find_winning_cell_Some (board : Board) (player r c : Z) :
  find_winning_cell board player = Some (r, c) ->
  exists before l after,
    lines = before ++ l :: after
    /\ (forall l', In l' before -> winnable board player l' = false)
    /\ winnable board player l = true
    /\ In (r, c) l
    /\ get board r c = EMPTY.
Proof.
  unfold find_winning_cell.
  destruct (find (winnable board player) lines) as [l |] eqn:F;
    [| discriminate].
  intros E. destruct (find_first _ _ _ F) as (before & after & Hl & Hw & Hb).
  exists before, l, after. repeat split; try assumption.
  - apply find_some in E. apply E.
  - apply find_some in E. destruct E as [_ E]. now apply Z.eqb_eq in E.
Qed.

Lemma find_winning_cell_None (board : Board) (player : Z) :
  find_winning_cell board player = None <->
  forall l, In l lines -> winnable board player l = false.
Proof.
  unfold find_winning_cell. split.
  - destruct (find (winnable board player) lines) as [l |] eqn:F.
    + destruct (winnable_empty_cell board player l) as [rc ->];
        [apply (find_some _ _ F) | discriminate].
    + intros _ l Hin. apply (find_none _ _ F l Hin).
  - intros Hno.
    destruct (find (winnable board player) lines) as [l |] eqn:F;
      [| reflexivity].
    apply find_some in F. destruct F as [Hin Hw].
    rewrite (Hno l Hin) in Hw. discriminate.
Qed.

Lemma find_winning_cell_of_winnable (board : Board) (player : Z) (l : Line) :
  In l lines -> winnable board player l = true ->
  exists r c, find_winning_cell board player = Some (r, c).
Proof.
  intros Hin Hw.
  destruct (find_winning_cell board player) as [[r c] |] eqn:F.
  - now exists r, c.
  - rewrite find_winning_cell_None in F.
    rewrite (F l Hin) in Hw. discriminate.
Qed.

Lemma find_winning_cell_in_range (board : Board) (player r c : Z) :
  find_winning_cell board player = Some (r, c) ->
  in_range r c /\ get board r c = EMPTY.
Proof.
  intros F.
  destruct (find_winning_cell_Some _ _ _ _ F)
    as (before & l & after & Hl & _ & _ & Hin & He).
  split; [| exact He].
  apply (in_lines_in_range l); [| exact Hin].
  rewrite Hl. apply in_or_app. right. now left.
Qed.

(** Whatever the board holds, [playerCanWin] returns the sentinel or the
    coordinate of an Empty cell of the board. *)
Lemma playerCanWin_range (board : Board) (which : Z) :
  playerCanWin board which = no_cell
  \/ (in_range (row (playerCanWin board which))
               (col (playerCanWin board which))
      /\ get board (row (playerCanWin board which))
                   (col (playerCanWin board which)) = EMPTY).
Proof.
  unfold playerCanWin. rewrite upto3_eq. cbn [first_return].
  repeat match goal with
    | |- context [if ?x =? ?y then _ else _] =>
        destruct (Z.eqb_spec x y)
    end;
    cbn [row col];
    first [ left; reflexivity
          | right; split; [unfold in_range; lia | assumption] ].
Qed.

(** ** The sampling loop of [ai_random] *)

Section Sampling.

Variable rnd : nat -> N.

Lemma sample_in_range (s k : nat) :
  in_range (fst (sample rnd s k)) (snd (sample rnd s k)).
Proof.
  unfold sample, in_range; cbn [fst snd].
  split; (apply Z.rem_bound_pos; [apply N2Z.is_nonneg | lia]).
Qed.

Lemma sample_next (s k : nat) :
  sample rnd (S (S s)) k = sample rnd s (S k).
Proof.
  unfold sample.
  replace (S (S s) + 2 * k)%nat with (s + 2 * S k)%nat by lia.
  reflexivity.
Qed.

(** One turn of the loop: draw sample 0, leave if its cell is Empty, go
    round again otherwise. *)
Lemma ai_random_unfold (fuel : nat) (board : Board) (s : nat) :
  ai_random rnd (S fuel) board s =
  if get board (fst (sample rnd s 0)) (snd (sample rnd s 0)) =? EMPTY
  then Some (set board (fst (sample rnd s 0)) (snd (sample rnd s 0)) COMPUTER,
             S (S s))
  else ai_random rnd fuel board (S (S s)).
Proof.
  unfold sample. cbn [ai_random rand fst snd].
  replace (s + 2 * 0)%nat with s by lia.
  replace (s + 1)%nat with (S s) by lia.
  destruct (get board _ _ =? EMPTY); reflexivity.
Qed.

(** If the k-th sample falls on an Empty cell, the loop has left after at
    most k + 1 turns, having claimed an Empty cell. *)
Lemma ai_random_leaves (board : Board) (k : nat) :
  forall s,
    get board (fst (sample rnd s k)) (snd (sample rnd s k)) = EMPTY ->
    exists r c s',
      in_range r c /\ get board r c = EMPTY
      /\ forall fuel, (S k <= fuel)%nat ->
           ai_random rnd fuel board s = Some (set board r c COMPUTER, s').
Proof.
  induction k as [| k IH]; intros s Hk.
  - exists (fst (sample rnd s 0)), (snd (sample rnd s 0)), (S (S s)).
    split; [apply sample_in_range |]. split; [exact Hk |].
    intros [| fuel] Hf; [lia |].
    rewrite ai_random_unfold. apply Z.eqb_eq in Hk. now rewrite Hk.
  - destruct (Z.eqb_spec
                (get board (fst (sample rnd s 0)) (snd (sample rnd s 0)))
                EMPTY) as [H0 | H0].
    + exists (fst (sample rnd s 0)), (snd (sample rnd s 0)), (S (S s)).
      split; [apply sample_in_range |]. split; [exact H0 |].
      intros [| fuel] Hf; [lia |].
      rewrite ai_random_unfold. apply Z.eqb_eq in H0. now rewrite H0.
    + rewrite <- sample_next in Hk.
      destruct (IH _ Hk) as (r & c & s' & Hrc & He & Hrun).
      exists r, c, s'. split; [exact Hrc |]. split; [exact He |].
      intros [| fuel] Hf; [lia |].
      rewrite ai_random_unfold. apply Z.eqb_neq in H0. rewrite H0.
      apply Hrun. lia.
Qed.

(** Whenever the loop leaves, it has claimed an Empty cell of the board. *)
Lemma ai_random_sound (fuel : nat) :
  forall board s board' s',
    ai_random rnd fuel board s = Some (board', s') ->
    exists r c,
      in_range r c /\ get board r c = EMPTY
      /\ board' = set board r c COMPUTER.
Proof.
  induction fuel as [| fuel IH]; intros board s board' s'; [discriminate |].
  rewrite ai_random_unfold.
  destruct (Z.eqb_spec
              (get board (fst (sample rnd s 0)) (snd (sample rnd s 0)))
              EMPTY) as [H0 | H0].
  - intros [= <- <-]. eexists _, _.
    split; [apply sample_in_range |]. split; [exact H0 | reflexivity].
  - apply IH.
Qed.

(** On a full board the loop never leaves, whatever the fuel. *)
Lemma ai_random_full_board (board : Board) :
  full board -> forall fuel s, ai_random rnd fuel board s = None.
Proof.
  intros Hfull fuel. induction fuel as [| fuel IH]; intros s; [reflexivity |].
  rewrite ai_random_unfold.
  destruct (Z.eqb_spec
              (get board (fst (sample rnd s 0)) (snd (sample rnd s 0)))
              EMPTY) as [H0 | H0].
  - exfalso. apply (Hfull _ _ (sample_in_range s 0)). exact H0.
  - apply IH.
Qed.

(** A fair source ends the loop on every board with an Empty cell. *)
Lemma ai_random_fair (board : Board) (s : nat) :
  has_empty board -> fair rnd s ->
  exists n r c s',
    in_range r c /\ get board r c = EMPTY
    /\ forall fuel, (n <= fuel)%nat ->
         ai_random rnd fuel board s = Some (set board r c COMPUTER, s').
Proof.
  intros (r0 & c0 & Hrc0 & He0) Hfair.
  destruct (Hfair r0 c0 Hrc0) as [k Hk].
  destruct (ai_random_leaves board k s) as (r & c & s' & H).
  - rewrite Hk. exact He0.
  - exists (S k), r, c, s'. exact H.
Qed.

(** The loop is still running after [n] turns exactly when its first [n]
    samples all fell on occupied cells. *)
Lemma ai_random_still_running (board : Board) (n : nat) :
  forall s,
    ai_random rnd n board s = None <->
    still_running board (map (sample rnd s) (seq 0 n)) = true.
Proof.
  induction n as [| n IH]; intros s; [simpl; tauto |].
  rewrite ai_random_unfold.
  cbn [seq map]. rewrite <- seq_shift, map_map.
  unfold still_running. cbn [forallb].
  unfold occupied_cell at 1, at_cell.
  destruct (get board _ _ =? EMPTY); cbn [negb andb].
  - split; discriminate.
  - rewrite IH. unfold still_running.
    rewrite (map_ext _ _ (sample_next s)). tauto.
Qed.

End Sampling.

(** ** The strategies *)

Lemma in_range_guard (r c : Z) :
  in_range r c -> (0 <=? r) && (0 <=? c) = true.
Proof.
  unfold in_range. intros H. apply andb_true_iff.
  split; apply Z.leb_le; lia.
Qed.

(** [ai_smart] without its local variables: the centre, the corners in
    their fixed order, then [ai_random]; after [ai_random] the guard on
    [row] and [col] writes nothing more. *)
Lemma ai_smart_cases (rnd : nat -> N) (fuel : nat) (board : Board)
  (s : nat) :
  ai_smart rnd fuel board s =
  if get board 1 1 =? EMPTY then Some (set board 1 1 COMPUTER, s)
  else if get board 0 0 =? EMPTY then Some (set board 0 0 COMPUTER, s)
  else if get board 0 2 =? EMPTY then Some (set board 0 2 COMPUTER, s)
  else if get board 2 0 =? EMPTY then Some (set board 2 0 COMPUTER, s)
  else if get board 2 2 =? EMPTY then Some (set board 2 2 COMPUTER, s)
  else ai_random rnd fuel board s.
Proof.
  unfold ai_smart.
  repeat match goal with
    | |- context [if get board ?r ?c =? EMPTY then _ else _] =>
        destruct (get board r c =? EMPTY); [reflexivity |]
    end.
  destruct (ai_random rnd fuel board s) as [[board' s'] |]; reflexivity.
Qed.

(** [ai_genious] steered by the specification's detector. *)
Lemma ai_genious_policy (rnd : nat -> N) (fuel : nat) (board : Board)
  (s : nat) :
  wf_board board ->
  ai_genious rnd fuel board s = genius_policy rnd fuel board s.
Proof.
  intros Hwf. unfold ai_genious, genius_policy, computerCanWin, userCanWin.
  destruct (get board 1 1 =? EMPTY); [reflexivity |].
  rewrite !playerCanWin_find_winning_cell
    by (assumption || (left; reflexivity) || (right; reflexivity)).
  destruct (find_winning_cell board COMPUTER) as [[r c] |] eqn:Fc.
  - destruct (find_winning_cell_in_range _ _ _ _ Fc) as [Hrc _].
    cbn [to_Cell row col]. now rewrite (in_range_guard _ _ Hrc).
  - cbn [to_Cell no_cell row col].
    change ((0 <=? -1) && (0 <=? -1)) with false. cbv iota.
    destruct (find_winning_cell board USER) as [[r c] |] eqn:Fu.
    + destruct (find_winning_cell_in_range _ _ _ _ Fu) as [Hrc _].
      cbn [to_Cell row col]. now rewrite (in_range_guard _ _ Hrc).
    + reflexivity.
Qed.

Section Moves.

Variable rnd : nat -> N.

(** Each strategy, started on a board with an Empty cell and fed by a fair
    source, returns the board with one Empty cell claimed. *)
Lemma ai_smart_move (board : Board) (s : nat) :
  has_empty board -> fair rnd s ->
  exists n r c s',
    in_range r c /\ get board r c = EMPTY
    /\ forall fuel, (n <= fuel)%nat ->
         ai_smart rnd fuel board s = Some (set board r c COMPUTER, s').
Proof.
  intros He Hfair.
  destruct (ai_random_fair rnd board s He Hfair)
    as (n & r & c & s' & Hrc & E & Hrun).
  destruct (Z.eqb_spec (get board 1 1) EMPTY) as [E11 | N11].
  { exists 0%nat, 1, 1, s. repeat split; try lia; try assumption.
    intros fuel _. rewrite ai_smart_cases.
    apply Z.eqb_eq in E11. now rewrite E11. }
  destruct (Z.eqb_spec (get board 0 0) EMPTY) as [E00 | N00].
  { exists 0%nat, 0, 0, s. repeat split; try lia; try assumption.
    intros fuel _. rewrite ai_smart_cases.
    apply Z.eqb_neq in N11. apply Z.eqb_eq in E00.
    now rewrite N11, E00. }
  destruct (Z.eqb_spec (get board 0 2) EMPTY) as [E02 | N02].
  { exists 0%nat, 0, 2, s. repeat split; try lia; try assumption.
    intros fuel _. rewrite ai_smart_cases.
    apply Z.eqb_neq in N11, N00. apply Z.eqb_eq in E02.
    now rewrite N11, N00, E02. }
  destruct (Z.eqb_spec (get board 2 0) EMPTY) as [E20 | N20].
  { exists 0%nat, 2, 0, s. repeat split; try lia; try assumption.
    intros fuel _. rewrite ai_smart_cases.
    apply Z.eqb_neq in N11, N00, N02. apply Z.eqb_eq in E20.
    now rewrite N11, N00, N02, E20. }
  destruct (Z.eqb_spec (get board 2 2) EMPTY) as [E22 | N22].
  { exists 0%nat, 2, 2, s. repeat split; try lia; try assumption.
    intros fuel _. rewrite ai_smart_cases.
    apply Z.eqb_neq in N11, N00, N02, N20. apply Z.eqb_eq in E22.
    now rewrite N11, N00, N02, N20, E22. }
  exists n, r, c, s'. split; [exact Hrc |]. split; [exact E |].
  intros fuel Hfuel. rewrite ai_smart_cases.
  apply Z.eqb_neq in N11, N00, N02, N20, N22.
  rewrite N11, N00, N02, N20, N22. now apply Hrun.
Qed.

Lemma ai_genious_move (board : Board) (s : nat) :
  has_empty board -> fair rnd s ->
  exists n r c s',
    in_range r c /\ get board r c = EMPTY
    /\ forall fuel, (n <= fuel)%nat ->
         ai_genious rnd fuel board s = Some (set board r c COMPUTER, s').
Proof.
  intros He Hfair. unfold ai_genious.
  destruct (Z.eqb_spec (get board 1 1) EMPTY) as [E11 | N11].
  { exists 0%nat, 1, 1, s. repeat split; try lia; assumption. }
  destruct (playerCanWin_range board COMPUTER) as [Ec | [Hc Ec]].
  - unfold computerCanWin. rewrite Ec. cbn [no_cell row col].
    change ((0 <=? -1) && (0 <=? -1)) with false. cbv iota.
    destruct (playerCanWin_range board USER) as [Eu | [Hu Eu]].
    + unfold userCanWin. rewrite Eu. cbn [no_cell row col].
      change ((0 <=? -1) && (0 <=? -1)) with false. cbv iota.
      now apply ai_smart_move.
    + unfold userCanWin. rewrite (in_range_guard _ _ Hu).
      exists 0%nat, (row (playerCanWin board USER)),
        (col (playerCanWin board USER)), s.
      split; [exact Hu |]. split; [exact Eu | reflexivity].
  - unfold computerCanWin. rewrite (in_range_guard _ _ Hc).
    exists 0%nat, (row (playerCanWin board COMPUTER)),
      (col (playerCanWin board COMPUTER)), s.
    split; [exact Hc |]. split; [exact Ec | reflexivity].
Qed.

Lemma nextComputerMove_move (strategy : Z) (board : Board) (s : nat) :
  has_empty board -> fair rnd s ->
  exists n r c s',
    in_range r c /\ get board r c = EMPTY
    /\ forall fuel, (n <= fuel)%nat ->
         nextComputerMove rnd strategy fuel board s
         = Some (set board r c COMPUTER, s').
Proof.
  intros He Hfair. unfold nextComputerMove.
  destruct (strategy =? SMART); [now apply ai_smart_move |].
  destruct (strategy =? GENIOUS); [now apply ai_genious_move |].
  now apply ai_random_fair.
Qed.

End Moves.

Lemma rnd_sweep_fair : fair rnd_sweep 0.
Proof.
  intros r c Hrc. case_range Hrc.
  - now exists 0%nat.
  - now exists 1%nat.
  - now exists 2%nat.
  - now exists 3%nat.
  - now exists 4%nat.
  - now exists 5%nat.
  - now exists 6%nat.
  - now exists 7%nat.
  - now exists 8%nat.
Qed.

(** A source that keeps drawing an occupied cell keeps the loop running for
    ever, although the board has Empty cells: fairness cannot be dropped. *)
Lemma ai_random_stuck (fuel : nat) :
  forall s, ai_random rnd_stuck fuel board_user_row0 s = None.
Proof.
  induction fuel as [| fuel IH]; intros s; [reflexivity |].
  rewrite ai_random_unfold. apply IH.
Qed.

Lemma completes_line_everywhere :
  forallb (fun board =>
             completes_line board USER && completes_line board COMPUTER)
          all_boards = true.
Proof. vm_compute. reflexivity. Qed.

(** ** How many sample sequences keep [ai_random] running *)

Lemma still_running_cons_count (board : Board) (rc : Z * Z)
  (ds : list (list (Z * Z))) :
  length (filter (still_running board) (map (cons rc) ds)) =
  if occupied_cell board rc
  then length (filter (still_running board) ds)
  else 0%nat.
Proof.
  induction ds as [| d ds IH]; simpl.
  - now destruct (occupied_cell board rc).
  - destruct (occupied_cell board rc) eqn:Hrc; simpl.
    + change (forallb (occupied_cell board) d)
        with (still_running board d).
      destruct (still_running board d); simpl; now rewrite IH.
    + exact IH.
Qed.

Lemma still_running_step_count (board : Board) (cs : list (Z * Z))
  (ds : list (list (Z * Z))) :
  length (filter (still_running board)
            (flat_map (fun rc => map (cons rc) ds) cs)) =
  (length (filter (occupied_cell board) cs)
   * length (filter (still_running board) ds))%nat.
Proof.
  induction cs as [| rc cs IH]; [reflexivity |].
  cbn [flat_map filter].
  rewrite filter_app, length_app, IH, still_running_cons_count.
  destruct (occupied_cell board rc); simpl; lia.
Qed.

(** Of the 9^n sequences of [n] samples, occupied^n keep the loop running
    for [n] turns. *)
Lemma still_running_count (board : Board) (n : nat) :
  length (draws n) = (9 ^ n)%nat
  /\ length (filter (still_running board) (draws n))
     = (occupied board ^ n)%nat.
Proof.
  induction n as [| n [IHl IHf]]; [split; reflexivity |].
  split.
  - cbn [draws].
    rewrite (flat_map_constant_length (c := length (draws n))).
    + rewrite IHl. change (length cells9) with 9%nat.
      rewrite Nat.pow_succ_r'. reflexivity.
    + intros rc _. apply length_map.
  - cbn [draws]. rewrite still_running_step_count, IHf.
    fold (occupied board). rewrite Nat.pow_succ_r'. reflexivity.
Qed.

Lemma filter_drops {A : Type} (f : A -> bool) (x : A) (l : list A) :
  In x l -> f x = false -> (length (filter f l) < length l)%nat.
Proof.
  induction l as [| a l IH]; intros Hin Hx; [contradiction |].
  simpl. pose proof (filter_length_le f l) as Hle.
  destruct Hin as [-> | Hin].
  - rewrite Hx. lia.
  - specialize (IH Hin Hx). destruct (f a); simpl; lia.
Qed.

(** With an Empty cell on the board at most 8^n of the 9^n sequences keep
    the loop running for [n] turns: a share that tends to 0. *)
Lemma still_running_rare (board : Board) (n : nat) :
  has_empty board ->
  (length (filter (still_running board) (draws n)) <= 8 ^ n)%nat.
Proof.
  intros (r & c & Hrc & E).
  destruct (still_running_count board n) as [_ ->].
  apply Nat.pow_le_mono_l.
  assert (Hlt : (occupied board < length cells9)%nat).
  { apply (filter_drops _ (r, c)).
    - case_range Hrc; vm_compute; tauto.
    - unfold occupied_cell, at_cell. cbn [fst snd].
      apply Z.eqb_eq in E. now rewrite E. }
  change (length cells9) with 9%nat in Hlt. lia.
Qed.

(** * The claims of the specification *)

(** ** Threat detector *)

(** C4.  On a well-formed board on which some line holds exactly two cells
    of the player and one Empty cell, [playerCanWin] for that player returns
    the coordinate of the Empty cell of the first such line in the scan
    order of [lines]: rows, then columns, then the two diagonals. *)
Theorem playerCanWin_first_winnable (board : Board) (player : Z) (l : Line) :
  wf_board board -> is_player player ->
  In l lines -> winnable board player l = true ->
  exists before l0 after r c,
    lines = before ++ l0 :: after
    /\ (forall l', In l' before -> winnable board player l' = false)
    /\ winnable board player l0 = true
    /\ In (r, c) l0
    /\ get board r c = EMPTY
    /\ playerCanWin board player = mkCell r c.
Proof.
  intros Hwf Hp Hin Hw.
  destruct (find_winning_cell_of_winnable board player l Hin Hw)
    as (r & c & F).
  destruct (find_winning_cell_Some board player r c F)
    as (before & l0 & after & Hl & Hb & Hw0 & Hrc & He).
  exists before, l0, after, r, c.
  repeat (split; [assumption |]).
  rewrite (playerCanWin_find_winning_cell board player Hwf Hp), F.
  reflexivity.
Qed.

Lemma playerCanWin_first_winnable_witness :
  wf_board board_computer_row0_center
  /\ is_player USER
  /\ In diag_rtl lines
  /\ winnable board_computer_row0_center USER diag_rtl = true
  /\ exists before l0 after r c,
       lines = before ++ l0 :: after
       /\ (forall l', In l' before ->
                      winnable board_computer_row0_center USER l' = false)
       /\ winnable board_computer_row0_center USER l0 = true
       /\ In (r, c) l0
       /\ get board_computer_row0_center r c = EMPTY
       /\ playerCanWin board_computer_row0_center USER = mkCell r c.
Proof.
  assert (Hwf : wf_board board_computer_row0_center) by reflexivity.
  assert (Hp : is_player USER) by (left; reflexivity).
  assert (Hin : In diag_rtl lines) by (rewrite lines_eq; simpl; tauto).
  assert (Hw : winnable board_computer_row0_center USER diag_rtl = true)
    by reflexivity.
  repeat (split; [assumption |]).
  exact (playerCanWin_first_winnable
           board_computer_row0_center USER diag_rtl Hwf Hp Hin Hw).
Defined.

(** C7.  On a well-formed board on which no line holds exactly two cells of
    the player together with exactly one Empty cell, [playerCanWin] for that
    player returns the sentinel: row -1, column -1. *)
Theorem playerCanWin_none (board : Board) (player : Z) :
  wf_board board -> is_player player ->
  (forall l, In l lines -> winnable board player l = false) ->
  playerCanWin board player = mkCell (-1) (-1).
Proof.
  intros Hwf Hp Hno.
  rewrite (playerCanWin_find_winning_cell board player Hwf Hp).
  apply find_winning_cell_None in Hno. rewrite Hno. reflexivity.
Qed.

Lemma playerCanWin_none_witness :
  wf_board board_user_row0
  /\ is_player COMPUTER
  /\ (forall l, In l lines -> winnable board_user_row0 COMPUTER l = false)
  /\ playerCanWin board_user_row0 COMPUTER = mkCell (-1) (-1).
Proof.
  assert (Hwf : wf_board board_user_row0) by reflexivity.
  assert (Hp : is_player COMPUTER) by (right; reflexivity).
  assert (Hno : forall l, In l lines ->
                          winnable board_user_row0 COMPUTER l = false).
  { intros l Hin. rewrite lines_eq in Hin.
    repeat (destruct Hin as [<- | Hin]; [reflexivity |]).
    contradiction. }
  repeat (split; [assumption |]).
  exact (playerCanWin_none board_user_row0 COMPUTER Hwf Hp Hno).
Defined.

(** ** Outcome evaluator *)

Lemma in_lines_dec (l : Line) (P : Line -> Prop) :
  P (row_line 0) -> P (row_line 1) -> P (row_line 2) ->
  P (col_line 0) -> P (col_line 1) -> P (col_line 2) ->
  P diag_ltr -> P diag_rtl ->
  In l lines -> P l.
Proof.
  intros R0 R1 R2 C0 C1 C2 D1 D2 Hin. rewrite lines_eq in Hin.
  repeat (destruct Hin as [<- | Hin]; [assumption |]).
  contradiction.
Qed.

(** C5, as the code has it.  If the human owns the three cells of one of
    the 8 lines, [isGameOver] returns [USER_WON]; if the computer owns the
    three cells of one of the 8 lines and the human owns no line,
    [isGameOver] returns [COMPUTER_WON]; in particular the human owning
    (0,0), (1,1) and (2,2) gives [USER_WON] whatever the other cells hold. *)
Theorem isGameOver_line_owner (board : Board) (l : Line) :
  In l lines ->
  (owns board USER l = true -> isGameOver board = USER_WON)
  /\ (owns board COMPUTER l = true ->
      (forall l', In l' lines -> owns board USER l' = false) ->
      isGameOver board = COMPUTER_WON)
  /\ (get board 0 0 = USER -> get board 1 1 = USER ->
      get board 2 2 = USER -> isGameOver board = USER_WON).
Proof.
  intros Hin. rewrite isGameOver_cases. repeat split.
  - intros Hown. now rewrite (owns_has_line board USER l Hin Hown).
  - intros Hown Hno.
    rewrite (no_line_has_line board USER Hno).
    now rewrite (owns_has_line board COMPUTER l Hin Hown).
  - intros H00 H11 H22.
    assert (Hd : owns board USER diag_ltr = true).
    { unfold owns, diag_ltr, at_cell. cbn [forallb fst snd].
      rewrite H00, H11, H22. reflexivity. }
    assert (Hl : In diag_ltr lines) by (rewrite lines_eq; simpl; tauto).
    now rewrite (owns_has_line board USER diag_ltr Hl Hd).
Qed.

Lemma isGameOver_line_owner_witness :
  In diag_ltr lines
  /\ owns board_user_diag USER diag_ltr = true
  /\ isGameOver board_user_diag = USER_WON.
Proof.
  assert (Hl : In diag_ltr lines) by (rewrite lines_eq; simpl; tauto).
  assert (Hd : owns board_user_diag USER diag_ltr = true) by reflexivity.
  repeat (split; [assumption |]).
  exact (proj1 (isGameOver_line_owner board_user_diag diag_ltr Hl) Hd).
Defined.

(** C5 as stated fails where both players own a line: the computer owns
    row 1, yet [isGameOver] returns the human's win. *)
Lemma isGameOver_line_owner_counterexample :
  In (row_line 1) lines
  /\ owns board_both_lines COMPUTER (row_line 1) = true
  /\ isGameOver board_both_lines = USER_WON
  /\ isGameOver board_both_lines <> COMPUTER_WON.
Proof.
  repeat split.
  - rewrite lines_eq; simpl; tauto.
  - vm_compute. discriminate.
Qed.

(** C10.  On every board on which the human owns a complete line and the
    computer owns a complete line, [isGameOver] returns the human's win: the
    player loop tests [USER] first. *)
Theorem isGameOver_user_first (board : Board) (lu lc : Line) :
  In lu lines -> In lc lines ->
  owns board USER lu = true -> owns board COMPUTER lc = true ->
  isGameOver board = USER_WON.
Proof.
  intros Hu _ Hown _.
  unfold isGameOver. rewrite player_loop_values. cbn [first_return].
  rewrite player_won_has_line.
  now rewrite (owns_has_line board USER lu Hu Hown).
Qed.

Lemma isGameOver_user_first_witness :
  In (row_line 0) lines /\ In (row_line 1) lines
  /\ owns board_both_lines USER (row_line 0) = true
  /\ owns board_both_lines COMPUTER (row_line 1) = true
  /\ isGameOver board_both_lines = USER_WON.
Proof.
  assert (H0 : In (row_line 0) lines) by (rewrite lines_eq; simpl; tauto).
  assert (H1 : In (row_line 1) lines) by (rewrite lines_eq; simpl; tauto).
  assert (Hu : owns board_both_lines USER (row_line 0) = true)
    by reflexivity.
  assert (Hc : owns board_both_lines COMPUTER (row_line 1) = true)
    by reflexivity.
  repeat (split; [assumption |]).
  exact (isGameOver_user_first board_both_lines _ _ H0 H1 Hu Hc).
Defined.

(** C6.  On a board on which neither player owns a line, [isGameOver]
    returns [DRAW] when no cell is Empty and [IN_PROGRESS] when some cell is
    Empty.  The lines are tested before the cells are counted: a board on
    which a player owns a line is a win for one of the players, never a draw
    and never in progress, full or not. *)
Theorem isGameOver_draw_or_in_progress (board : Board) :
  ((forall player l, is_player player -> In l lines ->
                     owns board player l = false) ->
   (full board -> isGameOver board = DRAW)
   /\ (has_empty board -> isGameOver board = IN_PROGRESS))
  /\ (forall player l, is_player player -> In l lines ->
        owns board player l = true ->
        (isGameOver board = USER_WON \/ isGameOver board = COMPUTER_WON)
        /\ isGameOver board <> DRAW
        /\ isGameOver board <> IN_PROGRESS).
Proof.
  rewrite isGameOver_cases. split.
  - intros Hno.
    rewrite (no_line_has_line board USER)
      by (intros l Hl; apply Hno; [left; reflexivity | exact Hl]).
    rewrite (no_line_has_line board COMPUTER)
      by (intros l Hl; apply Hno; [right; reflexivity | exact Hl]).
    split.
    + intros Hfull. now rewrite (full_more_moves board Hfull).
    + intros He. now rewrite (has_empty_more_moves board He).
  - intros player l Hp Hl Hown.
    pose proof (owns_has_line board player l Hl Hown) as Hline.
    destruct Hp as [-> | ->].
    + rewrite Hline. repeat split; try (left; reflexivity); discriminate.
    + rewrite Hline.
      destruct (has_line board USER);
        repeat split; try (left; reflexivity); try (right; reflexivity);
        discriminate.
Qed.

Lemma board_drawn_no_line (player : Z) (l : Line) :
  is_player player -> In l lines -> owns board_drawn player l = false.
Proof.
  intros [-> | ->] Hl.
  - apply (in_lines_dec l (fun k => owns board_drawn USER k = false));
      (reflexivity || exact Hl).
  - apply (in_lines_dec l (fun k => owns board_drawn COMPUTER k = false));
      (reflexivity || exact Hl).
Qed.

Lemma board_drawn_full : full board_drawn.
Proof.
  intros r c Hrc. case_range Hrc; discriminate.
Qed.

Lemma isGameOver_draw_or_in_progress_witness :
  full board_drawn /\ isGameOver board_drawn = DRAW.
Proof.
  split; [exact board_drawn_full |].
  exact (proj1 (proj1 (isGameOver_draw_or_in_progress board_drawn)
                      board_drawn_no_line)
               board_drawn_full).
Defined.

(** ** Move strategies *)

(** More fuel never changes a result already returned. *)
Lemma ai_random_mono (rnd : nat -> N) (fuel : nat) :
  forall board s res,
    ai_random rnd fuel board s = Some res ->
    forall fuel', (fuel <= fuel')%nat ->
      ai_random rnd fuel' board s = Some res.
Proof.
  induction fuel as [| fuel IH]; intros board s res; [discriminate |].
  intros H [| fuel'] Hle; [lia |].
  rewrite ai_random_unfold in *.
  destruct (get board _ _ =? EMPTY); [exact H |].
  apply (IH _ _ _ H). lia.
Qed.

Lemma ai_smart_mono (rnd : nat -> N) (fuel : nat) (board : Board)
  (s : nat) (res : Board * nat) :
  ai_smart rnd fuel board s = Some res ->
  forall fuel', (fuel <= fuel')%nat ->
    ai_smart rnd fuel' board s = Some res.
Proof.
  intros H fuel' Hle. rewrite ai_smart_cases in *.
  repeat match goal with
    | |- context [if get board ?r ?c =? EMPTY then _ else _] =>
        destruct (get board r c =? EMPTY); [exact H |]
    end.
  now apply (ai_random_mono rnd fuel).
Qed.

Lemma ai_genious_mono (rnd : nat -> N) (fuel : nat) (board : Board)
  (s : nat) (res : Board * nat) :
  ai_genious rnd fuel board s = Some res ->
  forall fuel', (fuel <= fuel')%nat ->
    ai_genious rnd fuel' board s = Some res.
Proof.
  unfold ai_genious. intros H fuel' Hle.
  destruct (get board 1 1 =? EMPTY); [exact H |].
  destruct ((0 <=? row (computerCanWin board))
            && (0 <=? col (computerCanWin board))); [exact H |].
  destruct ((0 <=? row (userCanWin board))
            && (0 <=? col (userCanWin board))); [exact H |].
  now apply (ai_smart_mono rnd fuel).
Qed.

(** C9.  On every board with an Empty cell, the sampling loop of
    [ai_random] terminates when the random source is fair, that is, draws
    every cell at some iteration: some number of turns is enough, and from
    there on the result no longer depends on the fuel.  Fairness is what
    uniform sampling provides: by [still_running_rare] at most 8^n of the
    9^n equally likely sequences of n samples keep the loop running for n
    turns. *)
Theorem ai_random_terminates (rnd : nat -> N) (board : Board) (s : nat) :
  has_empty board -> fair rnd s ->
  exists n board' s',
    forall fuel, (n <= fuel)%nat ->
      ai_random rnd fuel board s = Some (board', s').
Proof.
  intros (r0 & c0 & Hrc0 & He0) Hfair.
  destruct (Hfair r0 c0 Hrc0) as [k Hk].
  assert (Hhit : get board (fst (sample rnd s k)) (snd (sample rnd s k))
                 = EMPTY) by (rewrite Hk; exact He0).
  destruct (ai_random_leaves rnd board k s Hhit)
    as (r & c & s' & _ & _ & Hrun).
  exists (S k), (set board r c COMPUTER), s'. exact Hrun.
Qed.

Lemma board_corners_taken_has_empty : has_empty board_corners_taken.
Proof.
  exists 1, 0. split; [unfold in_range; lia | reflexivity].
Qed.

Lemma ai_random_terminates_witness :
  has_empty board_corners_taken
  /\ fair rnd_sweep 0
  /\ exists n board' s',
       forall fuel, (n <= fuel)%nat ->
         ai_random rnd_sweep fuel board_corners_taken 0 = Some (board', s').
Proof.
  split; [exact board_corners_taken_has_empty |].
  split; [exact rnd_sweep_fair |].
  exact (ai_random_terminates rnd_sweep board_corners_taken 0
           board_corners_taken_has_empty rnd_sweep_fair).
Defined.

(** Whenever [ai_smart] or [ai_genious] returns, it has claimed an Empty
    cell of the board, whatever the random source. *)
Lemma ai_smart_sound (rnd : nat -> N) (fuel : nat) (board : Board)
  (s : nat) (board' : Board) (s' : nat) :
  ai_smart rnd fuel board s = Some (board', s') ->
  exists r c,
    in_range r c /\ get board r c = EMPTY
    /\ board' = set board r c COMPUTER.
Proof.
  rewrite ai_smart_cases.
  repeat match goal with
    | |- context [if get board ?r ?c =? EMPTY then _ else _] =>
        destruct (Z.eqb_spec (get board r c) EMPTY) as [e | _];
        [ intros [= <- <-]; exists r, c;
          split; [unfold in_range; lia |];
          split; [exact e | reflexivity] |]
    end.
  apply ai_random_sound.
Qed.

Lemma ai_genious_sound (rnd : nat -> N) (fuel : nat) (board : Board)
  (s : nat) (board' : Board) (s' : nat) :
  ai_genious rnd fuel board s = Some (board', s') ->
  exists r c,
    in_range r c /\ get board r c = EMPTY
    /\ board' = set board r c COMPUTER.
Proof.
  unfold ai_genious, computerCanWin, userCanWin.
  destruct (Z.eqb_spec (get board 1 1) EMPTY) as [E11 | _].
  { intros [= <- <-]. exists 1, 1.
    split; [unfold in_range; lia |]. split; [exact E11 | reflexivity]. }
  destruct (playerCanWin_range board COMPUTER) as [Ec | [Hc Ec]].
  - rewrite Ec. cbn [no_cell row col].
    change ((0 <=? -1) && (0 <=? -1)) with false. cbv iota.
    destruct (playerCanWin_range board USER) as [Eu | [Hu Eu]].
    + rewrite Eu. cbn [no_cell row col].
      change ((0 <=? -1) && (0 <=? -1)) with false. cbv iota.
      apply ai_smart_sound.
    + rewrite (in_range_guard _ _ Hu). intros [= <- <-].
      eexists _, _. split; [exact Hu |]. split; [exact Eu | reflexivity].
  - rewrite (in_range_guard _ _ Hc). intros [= <- <-].
    eexists _, _. split; [exact Hc |]. split; [exact Ec | reflexivity].
Qed.

(** C8.  On every 3x3 board with an Empty cell, each of the three
    strategies changes exactly one cell: whenever it returns, whatever
    [rand()] drew, the board it returns is the old one with one cell that was
    Empty turned into [COMPUTER] and every other cell as it was.  And it does
    return when the random source is fair, with a result that no amount of
    fuel changes. *)
Theorem strategies_claim_one_empty_cell (rnd : nat -> N)
  (strategy : nat -> Board -> nat -> option (Board * nat))
  (board : Board) (s : nat) :
  In strategy [ai_random rnd; ai_smart rnd; ai_genious rnd] ->
  is3x3 board -> has_empty board ->
  (forall fuel board' s',
     strategy fuel board s = Some (board', s') ->
     exists r c,
       in_range r c /\ get board r c = EMPTY
       /\ claims_cell board board' r c)
  /\ (fair rnd s ->
      exists n board' s',
        (forall fuel, (n <= fuel)%nat ->
           strategy fuel board s = Some (board', s'))
        /\ (forall fuel res, strategy fuel board s = Some res ->
                             res = (board', s'))).
Proof.
  intros Hin H3 He. split.
  - intros fuel board' s' Hrun.
    assert (Hset : exists r c,
               in_range r c /\ get board r c = EMPTY
               /\ board' = set board r c COMPUTER).
    { destruct Hin as [<- | [<- | [<- | []]]].
      - now apply (ai_random_sound rnd fuel board s board' s').
      - now apply (ai_smart_sound rnd fuel board s board' s').
      - now apply (ai_genious_sound rnd fuel board s board' s'). }
    destruct Hset as (r & c & Hrc & Hempty & ->).
    exists r, c. split; [exact Hrc |]. split; [exact Hempty |].
    now apply set_claims_cell.
  - intros Hfair.
    assert (Hmove : exists n r c s',
               in_range r c /\ get board r c = EMPTY
               /\ forall fuel, (n <= fuel)%nat ->
                    strategy fuel board s
                    = Some (set board r c COMPUTER, s')).
    { destruct Hin as [<- | [<- | [<- | []]]].
      - now apply ai_random_fair.
      - now apply ai_smart_move.
      - now apply ai_genious_move. }
    assert (Hmono : forall fuel res, strategy fuel board s = Some res ->
               forall fuel', (fuel <= fuel')%nat ->
                 strategy fuel' board s = Some res).
    { destruct Hin as [<- | [<- | [<- | []]]]; intros fuel res.
      - apply ai_random_mono.
      - apply ai_smart_mono.
      - apply ai_genious_mono. }
    destruct Hmove as (n & r & c & s' & _ & _ & Hrun).
    exists n, (set board r c COMPUTER), s'.
    split; [exact Hrun |].
    intros fuel res Hres.
    pose proof (Hmono fuel res Hres (Nat.max fuel n) (Nat.le_max_l _ _))
      as Hbig.
    rewrite (Hrun (Nat.max fuel n) (Nat.le_max_r _ _)) in Hbig.
    now inversion Hbig.
Qed.

Lemma strategies_claim_one_empty_cell_witness :
  In (ai_smart rnd_sweep)
     [ai_random rnd_sweep; ai_smart rnd_sweep; ai_genious rnd_sweep]
  /\ is3x3 board_corners_taken
  /\ has_empty board_corners_taken
  /\ fair rnd_sweep 0
  /\ ai_smart rnd_sweep 4 board_corners_taken 0
     = Some (set board_corners_taken 1 0 COMPUTER, 8%nat)
  /\ (exists r c,
        in_range r c /\ get board_corners_taken r c = EMPTY
        /\ claims_cell board_corners_taken
             (set board_corners_taken 1 0 COMPUTER) r c)
  /\ exists n board' s',
       (forall fuel, (n <= fuel)%nat ->
          ai_smart rnd_sweep fuel board_corners_taken 0 = Some (board', s'))
       /\ (forall fuel res,
             ai_smart rnd_sweep fuel board_corners_taken 0 = Some res ->
             res = (board', s')).
Proof.
  assert (Hin : In (ai_smart rnd_sweep)
                   [ai_random rnd_sweep; ai_smart rnd_sweep;
                    ai_genious rnd_sweep]) by (right; left; reflexivity).
  assert (H3 : is3x3 board_corners_taken) by reflexivity.
  assert (Hrun : ai_smart rnd_sweep 4 board_corners_taken 0
                 = Some (set board_corners_taken 1 0 COMPUTER, 8%nat))
    by reflexivity.
  pose proof (strategies_claim_one_empty_cell rnd_sweep (ai_smart rnd_sweep)
                board_corners_taken 0 Hin H3 board_corners_taken_has_empty)
    as [Hframe Hret].
  split; [exact Hin |]. split; [exact H3 |].
  split; [exact board_corners_taken_has_empty |].
  split; [exact rnd_sweep_fair |].
  split; [exact Hrun |].
  split; [exact (Hframe 4%nat _ _ Hrun) | exact (Hret rnd_sweep_fair)].
Defined.

(** On a full board no strategy ever returns: the sampling loop, reached
    by all three, finds no Empty cell.  The board is never written. *)
Lemma strategies_diverge_on_full_board (rnd : nat -> N) (board : Board) :
  full board ->
  forall fuel s,
    ai_random rnd fuel board s = None
    /\ ai_smart rnd fuel board s = None
    /\ ai_genious rnd fuel board s = None.
Proof.
  intros Hfull fuel s.
  assert (Hr : ai_random rnd fuel board s = None)
    by now apply ai_random_full_board.
  assert (Hs : ai_smart rnd fuel board s = None).
  { destruct (ai_smart rnd fuel board s) as [[board' s'] |] eqn:E;
      [| reflexivity].
    destruct (ai_smart_sound _ _ _ _ _ _ E) as (r & c & Hrc & He & _).
    now apply Hfull in He. }
  assert (Hg : ai_genious rnd fuel board s = None).
  { destruct (ai_genious rnd fuel board s) as [[board' s'] |] eqn:E;
      [| reflexivity].
    destruct (ai_genious_sound _ _ _ _ _ _ E) as (r & c & Hrc & He & _).
    now apply Hfull in He. }
  auto.
Qed.

(** ** The Genius policy *)

Lemma top_row_threat (board : Board) :
  get board 0 0 = USER -> get board 0 1 = USER -> get board 0 2 = EMPTY ->
  find_winning_cell board USER = Some (0, 2).
Proof.
  intros H00 H01 H02.
  unfold find_winning_cell. rewrite lines_eq.
  assert (Hw : winnable board USER (row_line 0) = true).
  { unfold winnable, count_cells, row_line, at_cell.
    cbn [filter fst snd]. rewrite H00, H01, H02. reflexivity. }
  cbn [find]. rewrite Hw.
  unfold empty_cell_of, row_line, at_cell. cbn [find fst snd].
  rewrite H00, H01, H02. reflexivity.
Qed.

(** C1.  On a well-formed board with an Empty cell, [ai_genious] decides in
    this order.  The detector it consults, [playerCanWin], is the threat
    detector of the specification.  If the centre is Empty it claims the
    centre.  Otherwise, if the detector finds a cell for the computer, it
    claims that cell.  Otherwise, if the detector finds a cell for the
    human, it claims that cell.  Otherwise it does what [ai_smart] does.  On
    the empty board it claims (1,1). *)
Theorem genius_decision_order (rnd : nat -> N) (fuel : nat)
  (board : Board) (s : nat) :
  wf_board board -> has_empty board ->
  (computerCanWin board = to_Cell (find_winning_cell board COMPUTER)
   /\ userCanWin board = to_Cell (find_winning_cell board USER))
  /\ (get board 1 1 = EMPTY ->
      ai_genious rnd fuel board s = Some (set board 1 1 COMPUTER, s))
  /\ (get board 1 1 <> EMPTY ->
      forall r c, find_winning_cell board COMPUTER = Some (r, c) ->
        ai_genious rnd fuel board s = Some (set board r c COMPUTER, s))
  /\ (get board 1 1 <> EMPTY ->
      find_winning_cell board COMPUTER = None ->
      forall r c, find_winning_cell board USER = Some (r, c) ->
        ai_genious rnd fuel board s = Some (set board r c COMPUTER, s))
  /\ (get board 1 1 <> EMPTY ->
      find_winning_cell board COMPUTER = None ->
      find_winning_cell board USER = None ->
      ai_genious rnd fuel board s = ai_smart rnd fuel board s)
  /\ ai_genious rnd fuel empty_board s
     = Some (set empty_board 1 1 COMPUTER, s).
Proof.
  intros Hwf _.
  split.
  { split; apply playerCanWin_find_winning_cell;
      (assumption || (left; reflexivity) || (right; reflexivity)). }
  rewrite (ai_genious_policy rnd fuel board s Hwf). unfold genius_policy.
  split; [| split; [| split; [| split]]].
  - intros E. apply Z.eqb_eq in E. now rewrite E.
  - intros N r c Fc. apply Z.eqb_neq in N. now rewrite N, Fc.
  - intros N Fc r c Fu. apply Z.eqb_neq in N. now rewrite N, Fc, Fu.
  - intros N Fc Fu. apply Z.eqb_neq in N. now rewrite N, Fc, Fu.
  - reflexivity.
Qed.

Lemma board_user_row0_center_has_empty : has_empty board_user_row0_center.
Proof.
  exists 0, 2. split; [unfold in_range; lia | reflexivity].
Qed.

Lemma genius_decision_order_witness :
  wf_board board_user_row0_center
  /\ has_empty board_user_row0_center
  /\ find_winning_cell board_user_row0_center COMPUTER = None
  /\ find_winning_cell board_user_row0_center USER = Some (0, 2)
  /\ ai_genious rnd_sweep 9 board_user_row0_center 0
     = Some (set board_user_row0_center 0 2 COMPUTER, 0%nat).
Proof.
  assert (Hwf : wf_board board_user_row0_center) by reflexivity.
  assert (Fc : find_winning_cell board_user_row0_center COMPUTER = None)
    by reflexivity.
  assert (Fu : find_winning_cell board_user_row0_center USER = Some (0, 2))
    by reflexivity.
  assert (N : get board_user_row0_center 1 1 <> EMPTY) by discriminate.
  split; [exact Hwf |].
  split; [exact board_user_row0_center_has_empty |].
  split; [exact Fc |]. split; [exact Fu |].
  exact (proj1 (proj2 (proj2 (proj2
           (genius_decision_order rnd_sweep 9 board_user_row0_center 0
              Hwf board_user_row0_center_has_empty))))
           N Fc 0 2 Fu).
Defined.

(** C2, as the code has it.  On a well-formed board with the human at (0,0)
    and (0,1), (0,2) Empty and no winning cell for the computer,
    [ai_genious] claims the centre when the centre is Empty, and blocks at
    (0,2) when the centre is taken. *)
Theorem genius_blocks_top_row (rnd : nat -> N) (fuel : nat)
  (board : Board) (s : nat) :
  wf_board board ->
  get board 0 0 = USER -> get board 0 1 = USER -> get board 0 2 = EMPTY ->
  computerCanWin board = no_cell ->
  (get board 1 1 = EMPTY ->
   ai_genious rnd fuel board s = Some (set board 1 1 COMPUTER, s))
  /\ (get board 1 1 <> EMPTY ->
      ai_genious rnd fuel board s = Some (set board 0 2 COMPUTER, s)).
Proof.
  intros Hwf H00 H01 H02 Hc. unfold ai_genious. split.
  - intros E. apply Z.eqb_eq in E. now rewrite E.
  - intros N. apply Z.eqb_neq in N. rewrite N, Hc.
    cbn [no_cell row col].
    change ((0 <=? -1) && (0 <=? -1)) with false. cbv iota.
    unfold userCanWin.
    rewrite (playerCanWin_find_winning_cell board USER Hwf)
      by (left; reflexivity).
    rewrite (top_row_threat board H00 H01 H02). reflexivity.
Qed.

Lemma genius_blocks_top_row_witness :
  wf_board board_user_row0_center
  /\ get board_user_row0_center 0 0 = USER
  /\ get board_user_row0_center 0 1 = USER
  /\ get board_user_row0_center 0 2 = EMPTY
  /\ computerCanWin board_user_row0_center = no_cell
  /\ get board_user_row0_center 1 1 <> EMPTY
  /\ ai_genious rnd_stuck 3 board_user_row0_center 5
     = Some (set board_user_row0_center 0 2 COMPUTER, 5%nat).
Proof.
  assert (Hwf : wf_board board_user_row0_center) by reflexivity.
  assert (N : get board_user_row0_center 1 1 <> EMPTY) by discriminate.
  repeat (split; [reflexivity || exact N |]).
  exact (proj2 (genius_blocks_top_row rnd_stuck 3 board_user_row0_center 5
                  Hwf eq_refl eq_refl eq_refl eq_refl) N).
Defined.

(** C2 as stated fails: with the human at (0,0) and (0,1), every other cell
    Empty and no winning cell for the computer, [ai_genious] claims the
    centre (1,1), not (0,2). *)
Lemma genius_blocks_top_row_counterexample :
  wf_board board_user_row0
  /\ computerCanWin board_user_row0 = no_cell
  /\ ai_genious rnd_sweep 9 board_user_row0 0
     = Some (set board_user_row0 1 1 COMPUTER, 0%nat)
  /\ ai_genious rnd_sweep 9 board_user_row0 0
     <> Some (set board_user_row0 0 2 COMPUTER, 0%nat).
Proof.
  repeat split. vm_compute. discriminate.
Qed.

(** C3, as the code has it.  On a well-formed board whose centre is not
    Empty and on which some line holds two cells of the computer and one
    Empty cell, [ai_genious] claims the Empty cell of the first such line in
    scan order, and the computer then owns that line, whether or not the
    human threatens a line of their own. *)
Theorem genius_completes_line (rnd : nat -> N) (fuel : nat)
  (board : Board) (s : nat) (l : Line) :
  wf_board board -> get board 1 1 <> EMPTY ->
  In l lines -> winnable board COMPUTER l = true ->
  exists before l0 after r c,
    lines = before ++ l0 :: after
    /\ (forall l', In l' before -> winnable board COMPUTER l' = false)
    /\ winnable board COMPUTER l0 = true
    /\ In (r, c) l0
    /\ get board r c = EMPTY
    /\ ai_genious rnd fuel board s = Some (set board r c COMPUTER, s)
    /\ owns (set board r c COMPUTER) COMPUTER l0 = true.
Proof.
  intros Hwf N Hin Hw.
  destruct (find_winning_cell_of_winnable board COMPUTER l Hin Hw)
    as (r & c & F).
  pose proof F as F'. unfold find_winning_cell in F'.
  destruct (find (winnable board COMPUTER) lines) as [l0 |] eqn:Ffind;
    [| discriminate].
  destruct (find_first _ _ _ Ffind) as (before & after & Hl & Hw0 & Hb).
  exists before, l0, after, r, c.
  split; [exact Hl |]. split; [exact Hb |]. split; [exact Hw0 |].
  split; [apply (find_some _ _ F') |].
  split.
  { pose proof (find_some _ _ F') as [_ E]. now apply Z.eqb_eq in E. }
  split.
  - rewrite (ai_genious_policy rnd fuel board s Hwf). unfold genius_policy.
    apply Z.eqb_neq in N. now rewrite N, F.
  - pose proof (by_enumeration _ completes_line_everywhere board Hwf) as H.
    apply andb_true_iff in H. destruct H as [_ H].
    unfold completes_line in H. now rewrite Ffind, F' in H.
Qed.

Lemma genius_completes_line_witness :
  wf_board board_computer_row0_center
  /\ get board_computer_row0_center 1 1 <> EMPTY
  /\ In (row_line 0) lines
  /\ winnable board_computer_row0_center COMPUTER (row_line 0) = true
  /\ exists before l0 after r c,
       lines = before ++ l0 :: after
       /\ (forall l', In l' before ->
             winnable board_computer_row0_center COMPUTER l' = false)
       /\ winnable board_computer_row0_center COMPUTER l0 = true
       /\ In (r, c) l0
       /\ get board_computer_row0_center r c = EMPTY
       /\ ai_genious rnd_sweep 9 board_computer_row0_center 0
          = Some (set board_computer_row0_center r c COMPUTER, 0%nat)
       /\ owns (set board_computer_row0_center r c COMPUTER) COMPUTER l0
          = true.
Proof.
  assert (Hwf : wf_board board_computer_row0_center) by reflexivity.
  assert (N : get board_computer_row0_center 1 1 <> EMPTY) by discriminate.
  assert (Hin : In (row_line 0) lines) by (rewrite lines_eq; simpl; tauto).
  assert (Hw : winnable board_computer_row0_center COMPUTER (row_line 0)
               = true) by reflexivity.
  repeat (split; [assumption |]).
  exact (genius_completes_line rnd_sweep 9 board_computer_row0_center 0
           (row_line 0) Hwf N Hin Hw).
Defined.

(** C3 as stated fails: the computer owns (0,0) and (0,1), (0,2) is Empty
    and the human threatens nothing, yet [ai_genious] claims the centre
    (1,1), not (0,2). *)
Lemma genius_completes_line_counterexample :
  wf_board board_computer_row0
  /\ winnable board_computer_row0 COMPUTER (row_line 0) = true
  /\ empty_cell_of board_computer_row0 (row_line 0) = Some (0, 2)
  /\ userCanWin board_computer_row0 = no_cell
  /\ ai_genious rnd_sweep 9 board_computer_row0 0
     = Some (set board_computer_row0 1 1 COMPUTER, 0%nat)
  /\ ai_genious rnd_sweep 9 board_computer_row0 0
     <> Some (set board_computer_row0 0 2 COMPUTER, 0%nat).
Proof.
  repeat split. vm_compute. discriminate.
Qed.

(** * Further properties of the code *)

(** ** Rendering *)

Lemma draw_cell_glyph (v : Z) :
  draw_cell v = ("| " ++ String (glyph v) " ")%string.
Proof.
  unfold draw_cell, glyph.
  destruct (v =? USER); [reflexivity |].
  destruct (v =? COMPUTER); reflexivity.
Qed.

(** The text of [drawBoard] with the nine glyphs left as they are. *)
Lemma drawBoard_text (board : Board) :
  drawBoard board =
  ("    A   B   C  " ++ endl
   ++ "  +---+---+---+" ++ endl
   ++ "0 | " ++ String (glyph (get board 0 0)) " | "
   ++ String (glyph (get board 0 1)) " | "
   ++ String (glyph (get board 0 2)) " |" ++ endl
   ++ "  +---+---+---+" ++ endl
   ++ "1 | " ++ String (glyph (get board 1 0)) " | "
   ++ String (glyph (get board 1 1)) " | "
   ++ String (glyph (get board 1 2)) " |" ++ endl
   ++ "  +---+---+---+" ++ endl
   ++ "2 | " ++ String (glyph (get board 2 0)) " | "
   ++ String (glyph (get board 2 1)) " | "
   ++ String (glyph (get board 2 2)) " |" ++ endl
   ++ "  +---+---+---+" ++ endl)%string.
Proof.
  unfold drawBoard. rewrite upto3_eq. unfold print_for. cbn [fold_right].
  rewrite !draw_cell_glyph. reflexivity.
Qed.

Lemma glyph_cases (v : Z) :
  (v = USER -> glyph v = "x"%char)
  /\ (v = COMPUTER -> glyph v = "o"%char)
  /\ (v <> USER -> v <> COMPUTER -> glyph v = " "%char).
Proof.
  unfold glyph. repeat split.
  - now intros ->.
  - now intros ->.
  - intros Hu Hc. apply Z.eqb_neq in Hu, Hc. now rewrite Hu, Hc.
Qed.

Lemma glyph_shown (board : Board) (r c : Z) :
  in_range r c ->
  String.get (glyph_at r c) (drawBoard board) = Some (glyph (get board r c)).
Proof.
  intros Hrc. rewrite drawBoard_text.
  case_range Hrc;
    generalize (glyph (get board 0 0)) (glyph (get board 0 1))
      (glyph (get board 0 2)) (glyph (get board 1 0))
      (glyph (get board 1 1)) (glyph (get board 1 2))
      (glyph (get board 2 0)) (glyph (get board 2 1))
      (glyph (get board 2 2));
    intros; reflexivity.
Qed.

(** X1.  Whatever the board holds, [drawBoard] prints 128 characters; the
    cell (r, c) is shown at offset 36 + 32 r + 4 c, on the line that starts
    with the digit of r and in the text column of the letter of c; it is
    shown as x when it holds [USER], as o when it holds [COMPUTER] and as a
    blank for every other value. *)
Theorem drawBoard_layout (board : Board) (r c : Z) :
  in_range r c ->
  String.length (drawBoard board) = 128%nat
  /\ String.get (row_label_at r) (drawBoard board)
     = Some (ascii_of_nat (48 + Z.to_nat r))
  /\ String.get (col_label_at c) (drawBoard board)
     = Some (ascii_of_nat (65 + Z.to_nat c))
  /\ (glyph_at r c = row_label_at r + col_label_at c)%nat
  /\ (get board r c = USER ->
      String.get (glyph_at r c) (drawBoard board) = Some "x"%char)
  /\ (get board r c = COMPUTER ->
      String.get (glyph_at r c) (drawBoard board) = Some "o"%char)
  /\ (get board r c <> USER -> get board r c <> COMPUTER ->
      String.get (glyph_at r c) (drawBoard board) = Some " "%char).
Proof.
  intros Hrc.
  destruct (glyph_cases (get board r c)) as (Hx & Ho & Hb).
  pose proof (glyph_shown board r c Hrc) as Hg.
  split; [| split; [| split; [| split; [| split; [| split]]]]].
  - rewrite drawBoard_text. reflexivity.
  - rewrite drawBoard_text. case_range Hrc; reflexivity.
  - rewrite drawBoard_text. case_range Hrc; reflexivity.
  - case_range Hrc; reflexivity.
  - intros E. now rewrite Hg, (Hx E).
  - intros E. now rewrite Hg, (Ho E).
  - intros Nu Nc. now rewrite Hg, (Hb Nu Nc).
Qed.

Lemma drawBoard_layout_witness :
  in_range 1 0
  /\ get board_user_diag 1 0 = COMPUTER
  /\ String.get (glyph_at 1 0) (drawBoard board_user_diag) = Some "o"%char.
Proof.
  assert (Hrc : in_range 1 0) by (unfold in_range; lia).
  split; [exact Hrc |]. split; [reflexivity |].
  exact (proj1 (proj2 (proj2 (proj2 (proj2 (proj2
           (drawBoard_layout board_user_diag 1 0 Hrc))))))
           eq_refl).
Defined.

Lemma glyph_injective (v w : Z) :
  cell_valueb v = true -> cell_valueb w = true ->
  glyph v = glyph w -> v = w.
Proof.
  intros Hv Hw.
  destruct (cell_valueb_cases v Hv) as [-> | [-> | ->]];
    destruct (cell_valueb_cases w Hw) as [-> | [-> | ->]];
    (reflexivity || discriminate).
Qed.

Lemma wf_board_cells (board : Board) :
  wf_board board ->
  exists a0 a1 a2 b0 b1 b2 c0 c1 c2,
    board = [[a0; a1; a2]; [b0; b1; b2]; [c0; c1; c2]]
    /\ Forall (fun v => cell_valueb v = true)
              [a0; a1; a2; b0; b1; b2; c0; c1; c2].
Proof.
  intros H.
  destruct (is3x3_inv board (wf_board_is3x3 board H))
    as (a0 & a1 & a2 & b0 & b1 & b2 & c0 & c1 & c2 & ->).
  exists a0, a1, a2, b0, b1, b2, c0, c1, c2. split; [reflexivity |].
  unfold wf_board in H; simpl in H.
  repeat (apply andb_true_iff in H; destruct H as [? H]).
  repeat match goal with
    | K : (_ && _) = true |- _ => apply andb_true_iff in K; destruct K
    end.
  repeat constructor; assumption.
Qed.

(** X2.  On well-formed boards the drawing loses nothing: two boards drawn
    alike are the same board. *)
Theorem drawBoard_injective (board1 board2 : Board) :
  wf_board board1 -> wf_board board2 ->
  drawBoard board1 = drawBoard board2 -> board1 = board2.
Proof.
  intros H1 H2 Hdraw.
  assert (Hcell : forall r c, in_range r c ->
            glyph (get board1 r c) = glyph (get board2 r c)).
  { intros r c Hrc.
    pose proof (glyph_shown board1 r c Hrc) as G1.
    pose proof (glyph_shown board2 r c Hrc) as G2.
    rewrite Hdraw in G1. rewrite G1 in G2. now inversion G2. }
  destruct (wf_board_cells board1 H1)
    as (a0 & a1 & a2 & b0 & b1 & b2 & c0 & c1 & c2 & -> & Ha).
  destruct (wf_board_cells board2 H2)
    as (x0 & x1 & x2 & y0 & y1 & y2 & z0 & z1 & z2 & -> & Hx).
  repeat match goal with
    | K : Forall _ (_ :: _) |- _ => inversion K; clear K; subst
    end.
  assert (R00 : in_range 0 0) by (unfold in_range; lia).
  assert (R01 : in_range 0 1) by (unfold in_range; lia).
  assert (R02 : in_range 0 2) by (unfold in_range; lia).
  assert (R10 : in_range 1 0) by (unfold in_range; lia).
  assert (R11 : in_range 1 1) by (unfold in_range; lia).
  assert (R12 : in_range 1 2) by (unfold in_range; lia).
  assert (R20 : in_range 2 0) by (unfold in_range; lia).
  assert (R21 : in_range 2 1) by (unfold in_range; lia).
  assert (R22 : in_range 2 2) by (unfold in_range; lia).
  pose proof (Hcell _ _ R00) as E00. pose proof (Hcell _ _ R01) as E01.
  pose proof (Hcell _ _ R02) as E02. pose proof (Hcell _ _ R10) as E10.
  pose proof (Hcell _ _ R11) as E11. pose proof (Hcell _ _ R12) as E12.
  pose proof (Hcell _ _ R20) as E20. pose proof (Hcell _ _ R21) as E21.
  pose proof (Hcell _ _ R22) as E22.
  change (glyph a0 = glyph x0) in E00. change (glyph a1 = glyph x1) in E01.
  change (glyph a2 = glyph x2) in E02. change (glyph b0 = glyph y0) in E10.
  change (glyph b1 = glyph y1) in E11. change (glyph b2 = glyph y2) in E12.
  change (glyph c0 = glyph z0) in E20. change (glyph c1 = glyph z1) in E21.
  change (glyph c2 = glyph z2) in E22.
  apply glyph_injective in E00, E01, E02, E10, E11, E12, E20, E21, E22;
    try assumption.
  now subst.
Qed.

Lemma drawBoard_injective_witness :
  wf_board board_drawn /\ wf_board (set board_drawn 0 0 USER)
  /\ drawBoard board_drawn = drawBoard (set board_drawn 0 0 USER)
  /\ board_drawn = set board_drawn 0 0 USER.
Proof.
  assert (H1 : wf_board board_drawn) by reflexivity.
  assert (H2 : wf_board (set board_drawn 0 0 USER)) by reflexivity.
  assert (Hd : drawBoard board_drawn = drawBoard (set board_drawn 0 0 USER))
    by reflexivity.
  repeat (split; [assumption |]).
  exact (drawBoard_injective board_drawn (set board_drawn 0 0 USER)
           H1 H2 Hd).
Defined.

(** Off the well-formed boards the drawing does lose something: a cell
    holding 1 or 2, the values the comment above [drawBoard] speaks of, is
    drawn as an Empty cell. *)
Lemma drawBoard_other_values :
  drawBoard [[1; 2; 0]; [0; 0; 0]; [0; 0; 0]] = drawBoard empty_board.
Proof. reflexivity. Qed.

(** ** The human's move *)

Lemma append_nil_r (s : string) : (s ++ "")%string = s.
Proof. induction s as [| a s IH]; simpl; [reflexivity | now rewrite IH]. Qed.

Lemma append_assoc (s t u : string) :
  ((s ++ t) ++ u)%string = (s ++ t ++ u)%string.
Proof. induction s as [| a s IH]; simpl; [reflexivity | now rewrite IH]. Qed.

Lemma column_of_range (col_c : ascii) (c : Z) :
  column_of col_c = Some c -> 0 <= c < 3.
Proof.
  unfold column_of.
  repeat match goal with
    | |- context [if ?b then _ else _] => destruct b
    end; intros [= <-]; lia.
Qed.

(** One turn of the loop of [nextPlayerMove]: a valid entry is played and
    ends the loop, any other entry is answered and the loop goes on. *)
Lemma nextPlayerMove_loop_step (col_c : ascii) (r : Z) (rest : list Entry)
  (board : Board) (col : Z) (printed : string) :
  nextPlayerMove_loop ((col_c, r) :: rest) board col printed =
  match column_of col_c with
  | Some c =>
      if valid_entry board (col_c, r)
      then Some (set board r c USER, rest, printed)
      else nextPlayerMove_loop rest board c
             (printed ++ complaints board (col_c, r))%string
  | None =>
      nextPlayerMove_loop rest board col
        (printed ++ complaints board (col_c, r))%string
  end.
Proof.
  cbn [nextPlayerMove_loop].
  unfold valid_entry, complaints, column_of, row_ok. cbn [fst snd].
  rewrite Z.gtb_ltb, !Z.ltb_antisym.
  change (get board r ?c =? 0) with (get board r c =? EMPTY).
  destruct ((col_c =? "a")%char || (col_c =? "A")%char);
    [| destruct ((col_c =? "b")%char || (col_c =? "B")%char);
       [| destruct ((col_c =? "c")%char || (col_c =? "C")%char)]];
    destruct (0 <=? r); destruct (r <=? 2); cbn [negb orb andb];
    try destruct (get board r _ =? EMPTY); cbn [negb orb andb];
    rewrite ?append_nil_r, ?append_assoc; reflexivity.
Qed.

(** The loop of [nextPlayerMove], entry by entry: it returns on the first
    valid entry, having answered every entry before it. *)
Lemma nextPlayerMove_loop_sound (inputs : list Entry) (board : Board) :
  forall col printed board' rest text,
    nextPlayerMove_loop inputs board col printed
    = Some (board', rest, text) ->
    exists skipped col_c r c,
      inputs = skipped ++ (col_c, r) :: rest
      /\ Forall (fun e => valid_entry board e = false) skipped
      /\ column_of col_c = Some c
      /\ in_range r c
      /\ get board r c = EMPTY
      /\ board' = set board r c USER
      /\ text = (printed ++ answers board skipped)%string.
Proof.
  induction inputs as [| [col_c r] inputs IH];
    intros col printed board' rest text; [discriminate |].
  rewrite nextPlayerMove_loop_step.
  assert (Hskip : forall col1,
    valid_entry board (col_c, r) = false ->
    nextPlayerMove_loop inputs board col1
      (printed ++ complaints board (col_c, r))%string
    = Some (board', rest, text) ->
    exists skipped col_c0 r0 c0,
      (col_c, r) :: inputs = skipped ++ (col_c0, r0) :: rest
      /\ Forall (fun e => valid_entry board e = false) skipped
      /\ column_of col_c0 = Some c0
      /\ in_range r0 c0
      /\ get board r0 c0 = EMPTY
      /\ board' = set board r0 c0 USER
      /\ text = (printed ++ answers board skipped)%string).
  { intros col1 Hbad Hrun.
    destruct (IH _ _ _ _ _ Hrun)
      as (skipped & col_c0 & r0 & c0 & -> & Hall & Hcol & Hrc & He & Hb & Ht).
    exists ((col_c, r) :: skipped), col_c0, r0, c0.
    split; [reflexivity |]. split; [now constructor |].
    repeat (split; [assumption |]).
    rewrite Ht. cbn [answers fold_right]. now rewrite append_assoc. }
  destruct (column_of col_c) as [c |] eqn:Hcol.
  - destruct (valid_entry board (col_c, r)) eqn:Hv.
    + intros [= <- <- <-].
      exists [], col_c, r, c. split; [reflexivity |].
      split; [constructor |]. split; [exact Hcol |].
      unfold valid_entry in Hv. cbn [fst snd] in Hv. rewrite Hcol in Hv.
      apply andb_true_iff in Hv. destruct Hv as [Hr He].
      unfold row_ok in Hr. apply andb_true_iff in Hr.
      destruct Hr as [Hr0 Hr2]. apply Z.leb_le in Hr0, Hr2.
      apply Z.eqb_eq in He.
      pose proof (column_of_range _ _ Hcol).
      split; [unfold in_range; lia |]. split; [exact He |].
      split; [reflexivity |].
      cbn [answers fold_right]. now rewrite append_nil_r.
    + now apply Hskip.
  - apply Hskip. unfold valid_entry. cbn [fst]. now rewrite Hcol.
Qed.

Lemma nextPlayerMove_loop_complete (skipped : list Entry) (board : Board) :
  forall col printed,
    Forall (fun e => valid_entry board e = false) skipped ->
    (forall col_c r c rest,
       column_of col_c = Some c -> valid_entry board (col_c, r) = true ->
       nextPlayerMove_loop (skipped ++ (col_c, r) :: rest) board col printed
       = Some (set board r c USER, rest,
               (printed ++ answers board skipped)%string))
    /\ nextPlayerMove_loop skipped board col printed = None.
Proof.
  induction skipped as [| [ch r0] skipped IH]; intros col printed Hall.
  - split; [| reflexivity].
    intros col_c r c rest Hcol Hv. cbn [app].
    rewrite nextPlayerMove_loop_step, Hcol, Hv.
    cbn [answers fold_right]. now rewrite append_nil_r.
  - inversion Hall as [| e es Hbad Hall']; subst.
    split.
    + intros col_c r c rest Hcol Hv. cbn [app].
      rewrite nextPlayerMove_loop_step, Hbad.
      cbn [answers fold_right]. rewrite <- append_assoc.
      destruct (column_of ch);
        now apply (proj1 (IH _ _ Hall')).
    + rewrite nextPlayerMove_loop_step, Hbad.
      destruct (column_of ch); now apply (proj2 (IH _ _ Hall')).
Qed.

Lemma set_marks_cell (board : Board) (r c v : Z) :
  is3x3 board -> in_range r c -> marks_cell board (set board r c v) r c v.
Proof.
  intros H Hrc. repeat split.
  - now apply set_is3x3.
  - now apply get_set_same.
  - intros r' c' Hrc' Hne. now apply get_set_other.
Qed.

(** X3.  When [nextPlayerMove] returns, it has played the first valid entry
    that [cin] held: the entries before it were all invalid and each was
    answered with its error messages, the cell played was Empty and now
    holds [USER], no other cell has changed, and the entries after it are
    still to be read. *)
Theorem nextPlayerMove_first_valid (inputs : list Entry) (board : Board)
  (board' : Board) (rest : list Entry) (text : string) :
  is3x3 board ->
  nextPlayerMove inputs board = Some (board', rest, text) ->
  exists skipped col_c r c,
    inputs = skipped ++ (col_c, r) :: rest
    /\ Forall (fun e => valid_entry board e = false) skipped
    /\ column_of col_c = Some c
    /\ get board r c = EMPTY
    /\ marks_cell board board' r c USER
    /\ text = (prompt ++ answers board skipped)%string.
Proof.
  intros H3 Hrun.
  destruct (nextPlayerMove_loop_sound _ _ _ _ _ _ _ Hrun)
    as (skipped & col_c & r & c & Hin & Hall & Hcol & Hrc & He & -> & Ht).
  exists skipped, col_c, r, c.
  repeat (split; [assumption |]).
  split; [now apply set_marks_cell | exact Ht].
Qed.

Lemma nextPlayerMove_first_valid_witness :
  is3x3 board_user_row0_center
  /\ nextPlayerMove
       [("z"%char, 1); ("B"%char, 1); ("c"%char, 0); ("A"%char, 2)]
       board_user_row0_center
     = Some (set board_user_row0_center 0 2 USER, [("A"%char, 2)],
             (prompt ++ msg_column ++ endl ++ msg_taken ++ endl)%string)
  /\ exists skipped col_c r c,
       [("z"%char, 1); ("B"%char, 1); ("c"%char, 0); ("A"%char, 2)]
       = skipped ++ (col_c, r) :: [("A"%char, 2)]
       /\ Forall (fun e => valid_entry board_user_row0_center e = false)
                 skipped
       /\ column_of col_c = Some c
       /\ get board_user_row0_center r c = EMPTY
       /\ marks_cell board_user_row0_center
            (set board_user_row0_center 0 2 USER) r c USER
       /\ (prompt ++ msg_column ++ endl ++ msg_taken ++ endl)%string
          = (prompt ++ answers board_user_row0_center skipped)%string.
Proof.
  assert (H3 : is3x3 board_user_row0_center) by reflexivity.
  assert (Hrun : nextPlayerMove
            [("z"%char, 1); ("B"%char, 1); ("c"%char, 0); ("A"%char, 2)]
            board_user_row0_center
          = Some (set board_user_row0_center 0 2 USER, [("A"%char, 2)],
                  (prompt ++ msg_column ++ endl ++ msg_taken ++ endl)%string))
    by reflexivity.
  split; [exact H3 |]. split; [exact Hrun |].
  exact (nextPlayerMove_first_valid _ _ _ _ _ H3 Hrun).
Defined.

(** X4.  [nextPlayerMove] accepts the first valid entry whatever was typed
    before it: after any run of invalid entries, a column letter in either
    case with a row between 0 and 2 that names an Empty cell is played, and
    what follows it is left unread. *)
Theorem nextPlayerMove_accepts (skipped : list Entry) (col_c : ascii)
  (r c : Z) (rest : list Entry) (board : Board) :
  Forall (fun e => valid_entry board e = false) skipped ->
  column_of col_c = Some c ->
  0 <= r <= 2 ->
  get board r c = EMPTY ->
  nextPlayerMove (skipped ++ (col_c, r) :: rest) board
  = Some (set board r c USER, rest,
          (prompt ++ answers board skipped)%string).
Proof.
  intros Hall Hcol Hr He.
  apply (proj1 (nextPlayerMove_loop_complete skipped board 0 prompt Hall));
    [exact Hcol |].
  unfold valid_entry, row_ok. cbn [fst snd]. rewrite Hcol.
  apply Z.eqb_eq in He. rewrite He.
  destruct Hr as [Hr0 Hr2]. apply Z.leb_le in Hr0, Hr2.
  now rewrite Hr0, Hr2.
Qed.

Lemma nextPlayerMove_accepts_witness :
  Forall (fun e => valid_entry board_user_row0_center e = false)
         [("b"%char, 1); ("A"%char, 3)]
  /\ column_of "C"%char = Some 2
  /\ 0 <= 2 <= 2
  /\ get board_user_row0_center 2 2 = EMPTY
  /\ nextPlayerMove [("b"%char, 1); ("A"%char, 3); ("C"%char, 2)]
       board_user_row0_center
     = Some (set board_user_row0_center 2 2 USER, [],
             (prompt
              ++ answers board_user_row0_center
                   [("b"%char, 1); ("A"%char, 3)])%string).
Proof.
  assert (Hall : Forall (fun e => valid_entry board_user_row0_center e
                                   = false)
                        [("b"%char, 1); ("A"%char, 3)])
    by (repeat constructor).
  assert (Hr : 0 <= 2 <= 2) by lia.
  split; [exact Hall |]. split; [reflexivity |]. split; [exact Hr |].
  split; [reflexivity |].
  exact (nextPlayerMove_accepts [("b"%char, 1); ("A"%char, 3)] "C"%char
           2 2 [] board_user_row0_center Hall eq_refl Hr eq_refl).
Defined.




(** ** [ai_random], sample by sample *)

(** X6.  [ai_random] claims the first sampled cell that is Empty: it returns
    within [fuel] turns exactly when one of the first [fuel] samples falls on
    an Empty cell; every sample before the first such one fell on an
    occupied cell; and it has then called [rand()] twice per sample drawn. *)
Theorem ai_random_first_empty_sample (rnd : nat -> N) (fuel : nat)
  (board : Board) :
  forall s board' s',
    ai_random rnd fuel board s = Some (board', s') <->
    exists k,
      (k < fuel)%nat
      /\ (forall j, (j < k)%nat -> at_cell board (sample rnd s j) <> EMPTY)
      /\ at_cell board (sample rnd s k) = EMPTY
      /\ board' = set board (fst (sample rnd s k)) (snd (sample rnd s k))
                    COMPUTER
      /\ s' = (s + 2 * S k)%nat.
Proof.
  induction fuel as [| fuel IH]; intros s board' s'.
  - split; [discriminate | intros (k & Hk & _); lia].
  - rewrite ai_random_unfold. unfold at_cell in *.
    destruct (Z.eqb_spec
                (get board (fst (sample rnd s 0)) (snd (sample rnd s 0)))
                EMPTY) as [H0 | H0].
    + split.
      * intros [= <- <-]. exists 0%nat.
        split; [lia |]. split; [intros j Hj; lia |].
        split; [exact H0 |]. split; [reflexivity | lia].
      * intros (k & Hk & Hbefore & Hat & -> & ->).
        destruct k as [| k]; [f_equal; f_equal; lia |].
        exfalso. apply (Hbefore 0%nat); [lia | exact H0].
    + rewrite IH. split.
      * intros (k & Hk & Hbefore & Hat & -> & ->).
        exists (S k). rewrite <- !sample_next.
        split; [lia |]. split.
        { intros [| j] Hj; [exact H0 |].
          rewrite <- sample_next. apply Hbefore. lia. }
        split; [exact Hat |]. split; [reflexivity | lia].
      * intros (k & Hk & Hbefore & Hat & -> & ->).
        destruct k as [| k]; [contradiction |].
        exists k. rewrite !sample_next.
        split; [lia |]. split.
        { intros j Hj. rewrite sample_next. apply Hbefore. lia. }
        split; [exact Hat |]. split; [reflexivity | lia].
Qed.

(** The board [ai_random] returns is decided by the samples alone. *)
Lemma ai_random_on_samples (rnd : nat -> N) (n : nat) (board : Board) :
  forall s,
    option_map fst (ai_random rnd n board s) =
    option_map (fun rc => set board (fst rc) (snd rc) COMPUTER)
               (empty_cell_of board (map (sample rnd s) (seq 0 n))).
Proof.
  induction n as [| n IH]; intros s; [reflexivity |].
  rewrite ai_random_unfold.
  cbn [seq map]. rewrite <- seq_shift, map_map.
  unfold empty_cell_of. cbn [find]. unfold at_cell at 1.
  destruct (get board _ _ =? EMPTY); [reflexivity |].
  rewrite IH. unfold empty_cell_of.
  now rewrite (map_ext _ _ (sample_next rnd s)).
Qed.

Lemma hits_cons_count (board : Board) (rc x : Z * Z)
  (ds : list (list (Z * Z))) :
  length (filter (hits board rc) (map (cons x) ds)) =
  if at_cell board x =? EMPTY
  then (if coord_eqb x rc then length ds else 0%nat)
  else length (filter (hits board rc) ds).
Proof.
  unfold hits, empty_cell_of.
  induction ds as [| d ds IH]; cbn [map filter find length].
  - destruct (at_cell board x =? EMPTY); [| reflexivity].
    now destruct (coord_eqb x rc).
  - destruct (at_cell board x =? EMPTY) eqn:Ex.
    + destruct (coord_eqb x rc); cbn [length]; now rewrite IH.
    + destruct (find _ d) as [y |]; [destruct (coord_eqb y rc) |];
        cbn [length]; now rewrite IH.
Qed.

Lemma hits_step_count (board : Board) (rc : Z * Z) (cs : list (Z * Z))
  (ds : list (list (Z * Z))) :
  length (filter (hits board rc)
            (flat_map (fun x => map (cons x) ds) cs)) =
  (length (filter (fun x => coord_eqb x rc && (at_cell board x =? EMPTY)%Z)
                  cs) * length ds
   + length (filter (occupied_cell board) cs)
     * length (filter (hits board rc) ds))%nat.
Proof.
  induction cs as [| x cs IH]; [reflexivity |].
  cbn [flat_map filter].
  rewrite filter_app, length_app, IH, hits_cons_count.
  unfold occupied_cell.
  destruct (at_cell board x =? EMPTY); destruct (coord_eqb x rc);
    cbn [andb negb length]; lia.
Qed.

Lemma empty_cell_listed_once (board : Board) (r c : Z) :
  in_range r c -> get board r c = EMPTY ->
  length (filter (fun x => coord_eqb x (r, c) && (at_cell board x =? EMPTY))
                 cells9) = 1%nat.
Proof.
  intros Hrc E. apply Z.eqb_eq in E.
  change cells9 with
    [(0, 0); (0, 1); (0, 2); (1, 0); (1, 1); (1, 2); (2, 0); (2, 1); (2, 2)].
  unfold at_cell, coord_eqb.
  case_range Hrc; cbn [filter fst snd Z.eqb Pos.eqb andb];
    rewrite E; reflexivity.
Qed.

Lemma chances_step (board : Board) (n : nat) (r c : Z) :
  in_range r c -> get board r c = EMPTY ->
  chances board (S n) (r, c)
  = (9 ^ n + occupied board * chances board n (r, c))%nat.
Proof.
  intros Hrc E. unfold chances. cbn [draws].
  rewrite hits_step_count, (empty_cell_listed_once board r c Hrc E).
  rewrite (proj1 (still_running_count board n)).
  fold (occupied board). lia.
Qed.

(** X7.  [ai_random] favours no Empty cell: the board it returns is decided
    by the samples drawn, and of the 9^n equally likely sequences of n
    samples as many make it claim one Empty cell as any other. *)
Theorem ai_random_uniform (board : Board) (n : nat) (r1 c1 r2 c2 : Z) :
  in_range r1 c1 -> in_range r2 c2 ->
  get board r1 c1 = EMPTY -> get board r2 c2 = EMPTY ->
  chances board n (r1, c1) = chances board n (r2, c2)
  /\ forall rnd s,
       option_map fst (ai_random rnd n board s) =
       option_map (fun rc => set board (fst rc) (snd rc) COMPUTER)
                  (empty_cell_of board (map (sample rnd s) (seq 0 n))).
Proof.
  intros H1 H2 E1 E2. split.
  - induction n as [| n IH]; [reflexivity |].
    now rewrite !chances_step, IH.
  - intros rnd s. apply ai_random_on_samples.
Qed.

Lemma ai_random_uniform_witness :
  in_range 1 0 /\ in_range 2 1
  /\ get board_corners_taken 1 0 = EMPTY
  /\ get board_corners_taken 2 1 = EMPTY
  /\ chances board_corners_taken 3 (1, 0)
     = chances board_corners_taken 3 (2, 1).
Proof.
  assert (H1 : in_range 1 0) by (unfold in_range; lia).
  assert (H2 : in_range 2 1) by (unfold in_range; lia).
  split; [exact H1 |]. split; [exact H2 |].
  split; [reflexivity |]. split; [reflexivity |].
  exact (proj1 (ai_random_uniform board_corners_taken 3 1 0 2 1
                  H1 H2 eq_refl eq_refl)).
Defined.

(** ** The outcome evaluator, read backwards *)

Lemma more_moves_false_full (board : Board) :
  more_moves board = false -> full board.
Proof.
  intros Hm r c Hrc E.
  assert (He : has_empty board) by (exists r, c; now split).
  rewrite (has_empty_more_moves board He) in Hm. discriminate.
Qed.

(** X8.  [isGameOver] returns one of its four statuses and each tells what
    the board holds: [USER_WON] exactly when the human owns a line,
    [COMPUTER_WON] exactly when the computer owns a line and the human owns
    none, [DRAW] exactly when nobody owns a line and no cell is Empty,
    [IN_PROGRESS] exactly when nobody owns a line and some cell is Empty.  A
    win is never reported for a player who owns no line. *)
Theorem isGameOver_exact (board : Board) :
  (isGameOver board = USER_WON <-> has_line board USER = true)
  /\ (isGameOver board = COMPUTER_WON <->
      has_line board USER = false /\ has_line board COMPUTER = true)
  /\ (isGameOver board = DRAW <->
      has_line board USER = false /\ has_line board COMPUTER = false
      /\ full board)
  /\ (isGameOver board = IN_PROGRESS <->
      has_line board USER = false /\ has_line board COMPUTER = false
      /\ has_empty board)
  /\ (isGameOver board = USER_WON \/ isGameOver board = COMPUTER_WON
      \/ isGameOver board = DRAW \/ isGameOver board = IN_PROGRESS).
Proof.
  rewrite isGameOver_cases.
  destruct (has_line board USER) eqn:Hu;
    [| destruct (has_line board COMPUTER) eqn:Hc;
       [| destruct (more_moves board) eqn:Hm]].
  - split; [tauto |].
    split; [split; [discriminate | intros [H _]; discriminate] |].
    split; [split; [discriminate | intros [H _]; discriminate] |].
    split; [split; [discriminate | intros [H _]; discriminate] |].
    now left.
  - split; [split; discriminate |].
    split; [tauto |].
    split; [split; [discriminate | intros (_ & H & _); discriminate] |].
    split; [split; [discriminate | intros (_ & H & _); discriminate] |].
    right. now left.
  - pose proof (more_moves_has_empty board Hm) as He.
    split; [split; discriminate |].
    split; [split; [discriminate | intros [_ H]; discriminate] |].
    split.
    { split; [discriminate |]. intros (_ & _ & Hfull).
      rewrite (full_more_moves board Hfull) in Hm. discriminate. }
    split; [tauto |].
    right. right. now right.
  - pose proof (more_moves_false_full board Hm) as Hfull.
    split; [split; discriminate |].
    split; [split; [discriminate | intros [_ H]; discriminate] |].
    split; [tauto |].
    split.
    { split; [discriminate |]. intros (_ & _ & He).
      rewrite (has_empty_more_moves board He) in Hm. discriminate. }
    right. right. now left.
Qed.

(** ** The threat detector on any board *)




(** ** When the strategies sample *)


(** ** The game played by [main] *)

Lemma in_cells9 (r c : Z) : in_range r c -> In (r, c) cells9.
Proof. intros Hrc. case_range Hrc; vm_compute; tauto. Qed.

Lemma in_moves_of (board : Board) (r c player : Z) :
  in_range r c -> get board r c = EMPTY ->
  In (set board r c player) (moves_of board player).
Proof.
  intros Hrc E. unfold moves_of. apply in_map_iff.
  exists (r, c). split; [reflexivity |].
  apply filter_In. split; [now apply in_cells9 |].
  unfold at_cell. cbn [fst snd]. now apply Z.eqb_eq.
Qed.

(** When [ai_genious] decides without sampling, its choice is the same for
    every random source. *)
Lemma ai_genious_decided (rnd0 : nat -> N) (s0 : nat) (board board0 : Board)
  (s0' : nat) :
  ai_genious rnd0 0 board s0 = Some (board0, s0') ->
  forall rnd fuel s, ai_genious rnd fuel board s = Some (board0, s).
Proof.
  unfold ai_genious. intros H rnd fuel s.
  destruct (get board 1 1 =? EMPTY); [now inversion H |].
  destruct ((0 <=? row (computerCanWin board))
            && (0 <=? col (computerCanWin board))); [now inversion H |].
  destruct ((0 <=? row (userCanWin board))
            && (0 <=? col (userCanWin board))); [now inversion H |].
  rewrite ai_smart_cases in *.
  repeat match goal with
    | |- context [if get board ?r ?c =? EMPTY then _ else _] =>
        destruct (get board r c =? EMPTY); [now inversion H |]
    end.
  discriminate H.
Qed.

Lemma ai_genious_in_genius_moves (rnd : nat -> N) (fuel : nat)
  (board : Board) (s : nat) (board' : Board) (s' : nat) :
  ai_genious rnd fuel board s = Some (board', s') ->
  In board' (genius_moves board).
Proof.
  intros Hrun. unfold genius_moves.
  destruct (ai_genious (fun _ => 0%N) 0 board 0) as [[board0 s0] |] eqn:E.
  - rewrite (ai_genious_decided _ _ _ _ _ E rnd fuel s) in Hrun.
    inversion Hrun. now left.
  - destruct (ai_genious_sound _ _ _ _ _ _ Hrun) as (r & c & Hrc & He & ->).
    now apply in_moves_of.
Qed.

(** A turn of the loop leads from a position to one of the next
    positions, and sets the status to what [isGameOver] says of the new
    board. *)
Lemma take_turn_next (rnd : nat -> N) (fuel : nat) (g g' : Game) :
  gameStatus g = IN_PROGRESS ->
  gameStatus g = isGameOver (g_board g) ->
  take_turn rnd fuel g = Some g' ->
  In (position_of g') (next_positions (position_of g))
  /\ gameStatus g' = isGameOver (g_board g').
Proof.
  intros Hprog Hstat Hturn.
  unfold next_positions, position_of. cbn [fst snd].
  rewrite <- Hstat, Hprog. change (IN_PROGRESS =? IN_PROGRESS) with true.
  cbv iota. unfold take_turn in Hturn.
  destruct (playerTurn g).
  - destruct (nextPlayerMove (g_inputs g) (g_board g))
      as [[[board inputs] text] |] eqn:Hmove; [| discriminate].
    inversion Hturn; subst g'; clear Hturn. cbn [g_board playerTurn gameStatus].
    split; [| reflexivity].
    destruct (nextPlayerMove_loop_sound _ _ _ _ _ _ _ Hmove)
      as (skipped & col_c & r & c & _ & _ & _ & Hrc & He & -> & _).
    apply in_map_iff. exists (set (g_board g) r c USER).
    split; [reflexivity | now apply in_moves_of].
  - unfold nextComputerMove in Hturn.
    change (GENIOUS =? SMART) with false in Hturn.
    change (GENIOUS =? GENIOUS) with true in Hturn. cbv iota in Hturn.
    destruct (ai_genious rnd fuel (g_board g) (g_rand g))
      as [[board s] |] eqn:Hmove; [| discriminate].
    inversion Hturn; subst g'; clear Hturn. cbn [g_board playerTurn gameStatus].
    split; [| reflexivity].
    apply in_map_iff. exists board.
    split; [reflexivity |].
    now apply (ai_genious_in_genius_moves rnd fuel (g_board g) (g_rand g)
                 board s).
Qed.

Lemma plays_extend (k : nat) :
  forall p q q',
    In q (plays k p) -> In q' (next_positions q) -> In q' (plays (S k) p).
Proof.
  induction k as [| k IH]; intros p q q' Hq Hq'.
  - destruct Hq as [<- | []]. cbn [plays].
    apply in_flat_map. exists q'. split; [exact Hq' | now left].
  - change (plays (S k) p) with (flat_map (plays k) (next_positions p)) in Hq.
    apply in_flat_map in Hq. destruct Hq as (p1 & Hp1 & Hq).
    change (plays (S (S k)) p)
      with (flat_map (plays (S k)) (next_positions p)).
    apply in_flat_map. exists p1. split; [exact Hp1 |].
    now apply (IH p1 q q').
Qed.

Lemma plays_shrink (k : nat) :
  forall p q',
    In q' (plays (S k) p) ->
    exists q, In q (plays k p) /\ In q' (next_positions q).
Proof.
  induction k as [| k IH]; intros p q' Hq'.
  - cbn [plays] in Hq'. apply in_flat_map in Hq'.
    destruct Hq' as (q1 & Hq1 & [<- | []]).
    exists p. split; [now left | exact Hq1].
  - change (plays (S (S k)) p)
      with (flat_map (plays (S k)) (next_positions p)) in Hq'.
    apply in_flat_map in Hq'. destruct Hq' as (p1 & Hp1 & Hq').
    destruct (IH p1 q' Hq') as (q & Hq & Hnext).
    exists q. split; [| exact Hnext].
    change (plays (S k) p) with (flat_map (plays k) (next_positions p)).
    apply in_flat_map. now exists p1.
Qed.

(** No game on the 3x3 board has a tenth turn. *)
Lemma plays_end (human_first : bool) (k : nat) :
  (10 <= k)%nat -> plays k (empty_board, human_first) = [].
Proof.
  intros Hk. replace k with ((k - 10) + 10)%nat by lia.
  induction (k - 10)%nat as [| j IH].
  - destruct human_first; vm_compute; reflexivity.
  - destruct (plays (S j + 10) (empty_board, human_first)) as [| q' l] eqn:E;
      [reflexivity |].
    assert (Hin : In q' (plays (S (j + 10)) (empty_board, human_first)))
      by (change (S (j + 10)) with (S j + 10)%nat; rewrite E; now left).
    apply plays_shrink in Hin. destruct Hin as (q & Hq & _).
    rewrite IH in Hq. contradiction.
Qed.

Lemma in_game_plays (rnd : nat -> N) (g0 : Game) (k : nat) (g : Game) :
  gameStatus g0 = isGameOver (g_board g0) ->
  in_game rnd g0 k g ->
  In (position_of g) (plays k (position_of g0))
  /\ gameStatus g = isGameOver (g_board g).
Proof.
  intros H0 Hgame. induction Hgame as [| k g fuel g' Hgame IH Hprog Hturn].
  - split; [now left | exact H0].
  - destruct IH as [Hin Hstat].
    destruct (take_turn_next rnd fuel g g' Hprog Hstat Hturn)
      as [Hnext Hstat'].
    split; [| exact Hstat'].
    now apply (plays_extend k _ (position_of g)).
Qed.

Lemma start_position (rnd : nat -> N) (inputs : list Entry) :
  position_of (start rnd inputs)
  = (empty_board, negb (Z.rem (Z.of_N (rnd 0%nat)) 2 =? 0))
  /\ gameStatus (start rnd inputs) = isGameOver (g_board (start rnd inputs)).
Proof. split; reflexivity. Qed.

(** Every state of a game played by [main] shows one of the listed
    positions, and its status is what [isGameOver] says of its board. *)
Lemma in_game_positions (rnd : nat -> N) (inputs : list Entry) (k : nat)
  (g : Game) :
  in_game rnd (start rnd inputs) k g ->
  In (k, position_of g) (positions (playerTurn (start rnd inputs)))
  /\ gameStatus g = isGameOver (g_board g).
Proof.
  intros Hgame.
  destruct (start_position rnd inputs) as [Hpos Hstat].
  destruct (in_game_plays rnd _ k g Hstat Hgame) as [Hin Hs].
  split; [| exact Hs].
  rewrite Hpos in Hin.
  change (playerTurn (start rnd inputs))
    with (negb (Z.rem (Z.of_N (rnd 0%nat)) 2 =? 0)).
  unfold positions. apply in_flat_map. exists k. split.
  - apply in_seq. split; [lia |].
    destruct (Nat.lt_ge_cases k 10) as [Hlt | Hge]; [lia |].
    rewrite (plays_end _ k Hge) in Hin. contradiction.
  - now apply in_map.
Qed.

Lemma checked_in_game (check : nat * Position -> bool) :
  forallb check (positions true) = true ->
  forallb check (positions false) = true ->
  forall rnd inputs k g,
    in_game rnd (start rnd inputs) k g -> check (k, position_of g) = true.
Proof.
  intros Ht Hf rnd inputs k g Hgame.
  destruct (in_game_positions rnd inputs k g Hgame) as [Hin _].
  rewrite forallb_forall in Ht, Hf.
  destruct (playerTurn (start rnd inputs)); [now apply Ht | now apply Hf].
Qed.

Lemma list_eqb_eq {A : Type} (eq : A -> A -> bool) :
  (forall x y, eq x y = true -> x = y) ->
  forall l1 l2, list_eqb eq l1 l2 = true -> l1 = l2.
Proof.
  intros Heq. induction l1 as [| x l1 IH]; intros [| y l2] H;
    try discriminate H; [reflexivity |].
  cbn [list_eqb] in H. apply andb_true_iff in H. destruct H as [Hxy Hl].
  f_equal; [now apply Heq | now apply IH].
Qed.

Lemma board_eqb_eq (a b : Board) : board_eqb a b = true -> a = b.
Proof.
  apply list_eqb_eq. apply list_eqb_eq. intros x y. apply Z.eqb_eq.
Qed.

Lemma in_game_prepend (rnd : nat -> N) (fuel : nat) (g0 g1 : Game)
  (k : nat) (g : Game) :
  gameStatus g0 = IN_PROGRESS ->
  take_turn rnd fuel g0 = Some g1 ->
  in_game rnd g1 k g -> in_game rnd g0 (S k) g.
Proof.
  intros Hprog Hturn Hgame.
  induction Hgame as [| k g f g' Hgame IH Hp Ht].
  - exact (in_game_turn rnd g0 0 g0 fuel g1 (in_game_start rnd g0)
             Hprog Hturn).
  - exact (in_game_turn rnd g0 (S k) g f g' IH Hp Ht).
Qed.

(** A run of the loop that ends is a game: it ends after some number of
    turns, out of the loop condition, and any larger bound on the turns
    gives the same end. *)
Lemma game_loop_in_game (rnd : nat -> N) (fuel : nat) (n : nat) :
  forall g0 g,
    game_loop rnd n fuel g0 = Some g ->
    exists k,
      (k <= n)%nat
      /\ in_game rnd g0 k g
      /\ gameStatus g <> IN_PROGRESS
      /\ forall m, (k <= m)%nat -> game_loop rnd m fuel g0 = Some g.
Proof.
  induction n as [| n IH]; intros g0 g Hrun.
  - cbn [game_loop] in Hrun.
    destruct (Z.eqb_spec (gameStatus g0) IN_PROGRESS) as [E | N];
      [discriminate |].
    inversion Hrun; subst g. exists 0%nat.
    split; [lia |]. split; [constructor |]. split; [exact N |].
    intros m _. apply Z.eqb_neq in N.
    destruct m; cbn [game_loop]; now rewrite N.
  - cbn [game_loop] in Hrun.
    destruct (Z.eqb_spec (gameStatus g0) IN_PROGRESS) as [E | N].
    + destruct (take_turn rnd fuel g0) as [g1 |] eqn:Hturn; [| discriminate].
      destruct (IH g1 g Hrun) as (k & Hk & Hgame & Hend & Hmore).
      exists (S k). split; [lia |].
      split; [now apply (in_game_prepend rnd fuel g0 g1) |].
      split; [exact Hend |].
      intros [| m] Hm; [lia |].
      cbn [game_loop]. apply Z.eqb_eq in E. rewrite E, Hturn.
      apply Hmore. lia.
    + inversion Hrun; subst g. exists 0%nat.
      split; [lia |]. split; [constructor |]. split; [exact N |].
      intros m _. apply Z.eqb_neq in N.
      destruct m; cbn [game_loop]; now rewrite N.
Qed.

Lemma in_progress_has_empty (board : Board) :
  isGameOver board = IN_PROGRESS -> has_empty board.
Proof.
  rewrite isGameOver_cases.
  destruct (has_line board USER); [discriminate |].
  destruct (has_line board COMPUTER); [discriminate |].
  destruct (more_moves board) eqn:Hm; [| discriminate].
  intros _. now apply more_moves_has_empty.
Qed.

Lemma sound_positions_everywhere :
  forallb sound_position (positions true) = true
  /\ forallb sound_position (positions false) = true.
Proof. split; vm_compute; reflexivity. Qed.

(** X11.  In every game played by [main], whatever the human enters and
    whatever [rand()] returns, after any number of turns: the board is
    well-formed; [gameStatus] is what [isGameOver] says of the board; as
    many cells are taken as turns were played, at most nine; the player to
    move has taken as many cells as the other or one fewer; the two players
    never both own a line; and while the game is in progress the board has
    an Empty cell, so that no move function is ever called on a full
    board. *)
Theorem play_invariants (rnd : nat -> N) (inputs : list Entry) (k : nat)
  (g : Game) :
  in_game rnd (start rnd inputs) k g ->
  wf_board (g_board g)
  /\ gameStatus g = isGameOver (g_board g)
  /\ (k <= 9)%nat
  /\ count_value (g_board g) USER + count_value (g_board g) COMPUTER
     = Z.of_nat k
  /\ (playerTurn g = true ->
      count_value (g_board g) USER <= count_value (g_board g) COMPUTER
      <= count_value (g_board g) USER + 1)
  /\ (playerTurn g = false ->
      count_value (g_board g) COMPUTER <= count_value (g_board g) USER
      <= count_value (g_board g) COMPUTER + 1)
  /\ (has_line (g_board g) USER = false
      \/ has_line (g_board g) COMPUTER = false)
  /\ (gameStatus g = IN_PROGRESS -> has_empty (g_board g)).
Proof.
  intros Hgame.
  destruct (in_game_positions rnd inputs k g Hgame) as [Hin Hstat].
  destruct sound_positions_everywhere as [Ht Hf].
  pose proof (checked_in_game sound_position Ht Hf rnd inputs k g Hgame)
    as Hsound.
  unfold sound_position, position_of, balanced in Hsound.
  cbn [fst snd] in Hsound.
  apply andb_true_iff in Hsound. destruct Hsound as [Hsound H].
  apply andb_true_iff in Hsound. destruct Hsound as [Hsound H0].
  apply andb_true_iff in Hsound. destruct Hsound as [Hwf H1].
  split; [exact Hwf |]. split; [exact Hstat |].
  split.
  { unfold positions in Hin. apply in_flat_map in Hin.
    destruct Hin as (j & Hj & Hin). apply in_map_iff in Hin.
    destruct Hin as (p & [= <- _] & _). apply in_seq in Hj. lia. }
  split; [now apply Z.eqb_eq |].
  split.
  { intros Hturn. rewrite Hturn in H1.
    apply andb_true_iff in H1. destruct H1 as [Ha Hb].
    apply Z.leb_le in Ha, Hb. lia. }
  split.
  { intros Hturn. rewrite Hturn in H1.
    apply andb_true_iff in H1. destruct H1 as [Ha Hb].
    apply Z.leb_le in Ha, Hb. lia. }
  split.
  { destruct (has_line (g_board g) USER); [right | now left].
    destruct (has_line (g_board g) COMPUTER); [discriminate | reflexivity]. }
  intros Hprog. rewrite Hstat in Hprog.
  now apply in_progress_has_empty.
Qed.

Lemma isGameOver_range (board : Board) :
  isGameOver board = USER_WON \/ isGameOver board = COMPUTER_WON
  \/ isGameOver board = DRAW \/ isGameOver board = IN_PROGRESS.
Proof.
  rewrite isGameOver_cases.
  destruct (has_line board USER); [now left |].
  destruct (has_line board COMPUTER); [right; now left |].
  destruct (more_moves board); tauto.
Qed.

Lemma play_turns_bound (rnd : nat -> N) (inputs : list Entry) (k : nat)
  (g : Game) :
  in_game rnd (start rnd inputs) k g ->
  (k <= 9)%nat /\ gameStatus g = isGameOver (g_board g).
Proof.
  intros Hgame.
  destruct (in_game_positions rnd inputs k g Hgame) as [Hin Hstat].
  split; [| exact Hstat].
  unfold positions in Hin. apply in_flat_map in Hin.
  destruct Hin as (j & Hj & Hin). apply in_map_iff in Hin.
  destruct Hin as (p & [= <- _] & _). apply in_seq in Hj. lia.
Qed.

Lemma play_invariants_witness :
  in_game rnd_sweep (start rnd_sweep []) 1
    (mkGame (set empty_board 1 1 COMPUTER) IN_PROGRESS true 1 []
            (drawBoard empty_board))
  /\ wf_board (set empty_board 1 1 COMPUTER)
  /\ count_value (set empty_board 1 1 COMPUTER) USER
     + count_value (set empty_board 1 1 COMPUTER) COMPUTER = 1.
Proof.
  assert (Hgame : in_game rnd_sweep (start rnd_sweep []) 1
            (mkGame (set empty_board 1 1 COMPUTER) IN_PROGRESS true 1 []
                    (drawBoard empty_board))).
  { apply (in_game_turn rnd_sweep _ 0 (start rnd_sweep []) 0);
      [constructor | reflexivity | reflexivity]. }
  pose proof (play_invariants rnd_sweep [] 1 _ Hgame)
    as (Hwf & _ & _ & Hcount & _).
  split; [exact Hgame |]. split; [exact Hwf | exact Hcount].
Defined.

(** X12.  When [main] returns, the game is over: the status is a win or a
    draw, the one [isGameOver] gives for the final board, and the message
    printed last is the one of that status, never the one of the [default]
    branch.  Nine turns are always enough: a run that ends under any bound
    on the turns ends the same way under the bound 9. *)
Theorem main_ends (rnd : nat -> N) (turns fuel : nat) (inputs : list Entry)
  (g : Game) :
  main rnd turns fuel inputs = Some g ->
  (gameStatus g = USER_WON \/ gameStatus g = COMPUTER_WON
   \/ gameStatus g = DRAW)
  /\ gameStatus g = isGameOver (g_board g)
  /\ main rnd 9 fuel inputs = Some g
  /\ exists shown,
       g_printed g
       = (shown ++ drawBoard (g_board g) ++ endl
          ++ final_message (gameStatus g) ++ endl ++ endl)%string
       /\ (gameStatus g = USER_WON ->
           final_message (gameStatus g)
           = "^.^ Congratulations! ^.^ You win! ^.^ "%string)
       /\ (gameStatus g = COMPUTER_WON ->
           final_message (gameStatus g)
           = "~.~ Sorry! ~.~ You lose! ~.~ "%string)
       /\ (gameStatus g = DRAW ->
           final_message (gameStatus g)
           = "O.o Whoa, that was close! O.o You tied! O.o "%string).
Proof.
  unfold main. intros Hmain.
  destruct (game_loop rnd turns fuel (start rnd inputs)) as [gl |] eqn:Hloop;
    [| discriminate].
  inversion Hmain; subst g; clear Hmain. cbn [gameStatus g_board g_printed].
  destruct (game_loop_in_game rnd fuel turns _ _ Hloop)
    as (k & _ & Hgame & Hend & Hmore).
  destruct (play_turns_bound rnd inputs k gl Hgame) as [Hk Hstat].
  split.
  { pose proof (isGameOver_range (g_board gl)) as Hr.
    rewrite <- Hstat in Hr. tauto. }
  split; [exact Hstat |].
  split; [now rewrite (Hmore 9%nat Hk) |].
  exists (g_printed gl
          ++ "Game over! Here's what the final board looked like:"
          ++ endl ++ endl)%string.
  split; [symmetry; apply append_assoc |].
  repeat split; intros ->; reflexivity.
Qed.

Lemma main_ends_witness :
  exists g,
    main rnd_one 12 0 fork_inputs = Some g
    /\ gameStatus g = USER_WON
    /\ main rnd_one 9 0 fork_inputs = Some g.
Proof.
  destruct (main rnd_one 12 0 fork_inputs) as [g |] eqn:Hmain;
    [| vm_compute in Hmain; discriminate Hmain].
  exists g. split; [reflexivity |].
  pose proof (main_ends rnd_one 12 0 fork_inputs g Hmain)
    as (_ & _ & Hnine & _).
  split; [| exact Hnine].
  vm_compute in Hmain. now inversion Hmain.
Defined.

Lemma computer_turn_moves (rnd : nat -> N) (fuel : nat) (g g' : Game) :
  playerTurn g = false ->
  take_turn rnd fuel g = Some g' ->
  In (g_board g') (genius_moves (g_board g))
  /\ gameStatus g' = isGameOver (g_board g').
Proof.
  intros Hturn Hrun. unfold take_turn in Hrun. rewrite Hturn in Hrun.
  unfold nextComputerMove in Hrun.
  change (GENIOUS =? SMART) with false in Hrun.
  change (GENIOUS =? GENIOUS) with true in Hrun. cbv iota in Hrun.
  destruct (ai_genious rnd fuel (g_board g) (g_rand g))
    as [[board s] |] eqn:Hmove; [| discriminate].
  inversion Hrun; subst g'. cbn [g_board gameStatus].
  split; [| reflexivity].
  now apply (ai_genious_in_genius_moves rnd fuel (g_board g) (g_rand g)
               board s).
Qed.

Lemma genius_sharp_everywhere :
  forallb genius_sharp (positions true) = true
  /\ forallb genius_sharp (positions false) = true.
Proof. split; vm_compute; reflexivity. Qed.

(** X13.  In a game played by [main], the centre-first rule never costs
    [ai_genious] a move.  When the computer is to move and a cell completes
    a line of its own, it claims that cell and the game ends
    [COMPUTER_WON]; when no cell does and a cell completes a line of the
    human, it claims that cell. *)
Theorem genius_sharp_in_play (rnd : nat -> N) (inputs : list Entry)
  (k : nat) (g : Game) (fuel : nat) (g' : Game) :
  in_game rnd (start rnd inputs) k g ->
  gameStatus g = IN_PROGRESS ->
  playerTurn g = false ->
  take_turn rnd fuel g = Some g' ->
  (forall r c,
     find_winning_cell (g_board g) COMPUTER = Some (r, c) ->
     g_board g' = set (g_board g) r c COMPUTER
     /\ gameStatus g' = COMPUTER_WON)
  /\ (find_winning_cell (g_board g) COMPUTER = None ->
      forall r c,
        find_winning_cell (g_board g) USER = Some (r, c) ->
        g_board g' = set (g_board g) r c COMPUTER).
Proof.
  intros Hgame Hprog Hturn Hrun.
  destruct (play_turns_bound rnd inputs k g Hgame) as [_ Hstat].
  destruct (computer_turn_moves rnd fuel g g' Hturn Hrun) as [Hin Hstat'].
  destruct genius_sharp_everywhere as [Ht Hf].
  pose proof (checked_in_game genius_sharp Ht Hf rnd inputs k g Hgame)
    as Hsharp.
  unfold genius_sharp, position_of in Hsharp. cbn [fst snd] in Hsharp.
  rewrite Hturn, <- Hstat, Hprog in Hsharp.
  change (negb (IN_PROGRESS =? IN_PROGRESS)) with false in Hsharp.
  cbv iota in Hsharp.
  split.
  - intros r c Fc. rewrite Fc in Hsharp.
    rewrite forallb_forall in Hsharp. specialize (Hsharp _ Hin).
    apply andb_true_iff in Hsharp. destruct Hsharp as [Heq Hwon].
    split; [now apply board_eqb_eq |].
    rewrite Hstat'. now apply Z.eqb_eq.
  - intros Fc r c Fu. rewrite Fc, Fu in Hsharp.
    rewrite forallb_forall in Hsharp. specialize (Hsharp _ Hin).
    now apply board_eqb_eq.
Qed.

Lemma human_has_not_won_computer_first :
  forallb human_has_not_won (positions false) = true.
Proof. vm_compute. reflexivity. Qed.

(** X14.  When the coin flip of [main] gives the computer the first move,
    the human never wins: whatever the human enters and whatever [rand()]
    returns afterwards, no state of the game has the status [USER_WON], and
    [main] returns with [COMPUTER_WON] or [DRAW]. *)
Theorem computer_first_never_loses (rnd : nat -> N) (inputs : list Entry) :
  Z.rem (Z.of_N (rnd 0%nat)) 2 = 0 ->
  (forall k g, in_game rnd (start rnd inputs) k g ->
               gameStatus g <> USER_WON)
  /\ (forall turns fuel g,
        main rnd turns fuel inputs = Some g ->
        gameStatus g = COMPUTER_WON \/ gameStatus g = DRAW).
Proof.
  intros Hcoin.
  assert (Hnot : forall k g, in_game rnd (start rnd inputs) k g ->
                             gameStatus g <> USER_WON).
  { intros k g Hgame.
    destruct (in_game_positions rnd inputs k g Hgame) as [Hin Hstat].
    change (playerTurn (start rnd inputs))
      with (negb (Z.rem (Z.of_N (rnd 0%nat)) 2 =? 0)) in Hin.
    rewrite Hcoin in Hin. change (negb (0 =? 0)) with false in Hin.
    pose proof human_has_not_won_computer_first as Hall.
    rewrite forallb_forall in Hall. specialize (Hall _ Hin).
    unfold human_has_not_won, position_of in Hall. cbn [fst snd] in Hall.
    rewrite Hstat. apply Z.eqb_neq. now destruct (_ =? USER_WON). }
  split; [exact Hnot |].
  intros turns fuel g Hmain. unfold main in Hmain.
  destruct (game_loop rnd turns fuel (start rnd inputs)) as [gl |] eqn:Hloop;
    [| discriminate].
  inversion Hmain; subst g; clear Hmain. cbn [gameStatus].
  destruct (game_loop_in_game rnd fuel turns _ _ Hloop)
    as (k & _ & Hgame & Hend & _).
  destruct (play_turns_bound rnd inputs k gl Hgame) as [_ Hstat].
  pose proof (Hnot k gl Hgame) as Hn.
  pose proof (isGameOver_range (g_board gl)) as Hr.
  rewrite <- Hstat in Hr. tauto.
Qed.

Lemma computer_first_never_loses_witness :
  Z.rem (Z.of_N (rnd_stuck 0%nat)) 2 = 0
  /\ forall turns fuel g,
       main rnd_stuck turns fuel fork_inputs = Some g ->
       gameStatus g = COMPUTER_WON \/ gameStatus g = DRAW.
Proof.
  split; [reflexivity |].
  exact (proj2 (computer_first_never_loses rnd_stuck fork_inputs eq_refl)).
Defined.

(** The first move matters: moving first, the human can win. *)
Lemma human_first_can_win :
  option_map gameStatus (main rnd_one 9 0 fork_inputs) = Some USER_WON.
Proof. vm_compute. reflexivity. Qed.

Lemma genius_sharp_in_play_witness :
  exists g g',
    in_game rnd_stuck (start rnd_stuck careless_inputs) 4 g
    /\ gameStatus g = IN_PROGRESS
    /\ playerTurn g = false
    /\ take_turn rnd_stuck 0 g = Some g'
    /\ find_winning_cell (g_board g) COMPUTER = Some (2, 0)
    /\ g_board g' = set (g_board g) 2 0 COMPUTER
    /\ gameStatus g' = COMPUTER_WON.
Proof.
  eexists. eexists.
  assert (Hgame : in_game rnd_stuck (start rnd_stuck careless_inputs) 4
            (mkGame [[USER; USER; COMPUTER]; [EMPTY; COMPUTER; EMPTY];
                     [EMPTY; EMPTY; EMPTY]]
                    IN_PROGRESS false 1 []
                    (drawBoard empty_board
                     ++ drawBoard (set empty_board 1 1 COMPUTER) ++ prompt
                     ++ drawBoard [[USER; EMPTY; EMPTY];
                                   [EMPTY; COMPUTER; EMPTY];
                                   [EMPTY; EMPTY; EMPTY]]
                     ++ drawBoard [[USER; EMPTY; COMPUTER];
                                   [EMPTY; COMPUTER; EMPTY];
                                   [EMPTY; EMPTY; EMPTY]]
                     ++ prompt)%string)).
  { eapply (in_game_turn _ _ 3 _ 0%nat);
      [eapply (in_game_turn _ _ 2 _ 0%nat);
       [eapply (in_game_turn _ _ 1 _ 0%nat);
        [eapply (in_game_turn _ _ 0 _ 0%nat);
         [apply in_game_start | reflexivity | reflexivity]
        | reflexivity | reflexivity]
       | reflexivity | reflexivity]
      | reflexivity | reflexivity]. }
  split; [exact Hgame |]. split; [reflexivity |]. split; [reflexivity |].
  split; [reflexivity |]. split; [reflexivity |].
  exact (proj1 (genius_sharp_in_play rnd_stuck careless_inputs 4 _ 0 _
                  Hgame eq_refl eq_refl eq_refl)
               2 0 eq_refl).
Defined.

(** ** The strategies off their precondition and the odds of sampling *)

(** X15.  On a full board [nextComputerMove] never returns, whatever the
    strategy asked for and whatever [rand()] draws: every path ends in the
    sampling loop of [ai_random], which finds no Empty cell.  The board is
    never written. *)
Theorem nextComputerMove_full_board (rnd : nat -> N) (strategy : Z)
  (board : Board) :
  full board ->
  forall fuel s, nextComputerMove rnd strategy fuel board s = None.
Proof.
  intros Hfull fuel s.
  destruct (strategies_diverge_on_full_board rnd board Hfull fuel s)
    as (Hr & Hs & Hg).
  unfold nextComputerMove.
  destruct (strategy =? SMART); [exact Hs |].
  destruct (strategy =? GENIOUS); [exact Hg | exact Hr].
Qed.

Lemma nextComputerMove_full_board_witness :
  full board_drawn
  /\ nextComputerMove rnd_sweep GENIOUS 50 board_drawn 0 = None.
Proof.
  split; [exact board_drawn_full |].
  exact (nextComputerMove_full_board rnd_sweep GENIOUS board_drawn
           board_drawn_full 50%nat 0%nat).
Defined.

(** X16.  [ai_random] is still sampling after n turns exactly when its
    first n samples all fell on occupied cells; with an Empty cell on the
    board that is the case for at most 8^n of the 9^n equally likely
    sequences of n samples. *)
Theorem ai_random_running_share (board : Board) (n : nat) :
  has_empty board ->
  (forall rnd s,
     ai_random rnd n board s = None <->
     still_running board (map (sample rnd s) (seq 0 n)) = true)
  /\ length (draws n) = (9 ^ n)%nat
  /\ (length (filter (still_running board) (draws n)) <= 8 ^ n)%nat.
Proof.
  intros He.
  split; [intros rnd s; apply ai_random_still_running |].
  split; [apply (still_running_count board n) |].
  destruct He as (r & c & Hrc & E).
  rewrite (proj2 (still_running_count board n)).
  apply Nat.pow_le_mono_l.
  assert (Hlt : (occupied board < length cells9)%nat).
  { apply (filter_drops _ (r, c)); [now apply in_cells9 |].
    unfold occupied_cell, at_cell. cbn [fst snd].
    apply Z.eqb_eq in E. now rewrite E. }
  change (length cells9) with 9%nat in Hlt. lia.
Qed.

Lemma ai_random_running_share_witness :
  has_empty board_corners_taken
  /\ (length (filter (still_running board_corners_taken) (draws 2))
      <= 8 ^ 2)%nat.
Proof.
  split; [exact board_corners_taken_has_empty |].
  exact (proj2 (proj2 (ai_random_running_share board_corners_taken 2
                         board_corners_taken_has_empty))).
Defined.

(** ** What every move keeps *)

Lemma moves_keep_shape_everywhere :
  forallb moves_keep_shape all_boards = true.
Proof. vm_compute. reflexivity. Qed.

Lemma move_keeps_shape (board : Board) (player r c : Z) :
  wf_board board -> is_player player ->
  in_range r c -> get board r c = EMPTY ->
  wf_board (set board r c player)
  /\ count_value (set board r c player) EMPTY = count_value board EMPTY - 1
  /\ count_value (set board r c player) player
     = count_value board player + 1.
Proof.
  intros Hwf Hp Hrc E.
  pose proof (by_enumeration _ moves_keep_shape_everywhere board Hwf) as H.
  unfold moves_keep_shape in H. cbn [forallb] in H.
  apply andb_true_iff in H. destruct H as [Hu H].
  apply andb_true_iff in H. destruct H as [Hc _].
  assert (Hmove : In (set board r c player) (moves_of board player))
    by now apply in_moves_of.
  rewrite forallb_forall in Hu, Hc.
  destruct Hp as [-> | ->].
  - specialize (Hu _ Hmove).
    apply andb_true_iff in Hu. destruct Hu as [Hu H2].
    apply andb_true_iff in Hu. destruct Hu as [H0 H1].
    apply Z.eqb_eq in H1, H2. now repeat split.
  - specialize (Hc _ Hmove).
    apply andb_true_iff in Hc. destruct Hc as [Hc H2].
    apply andb_true_iff in Hc. destruct Hc as [H0 H1].
    apply Z.eqb_eq in H1, H2. now repeat split.
Qed.

(** X17.  On a well-formed board, a move that returns, by the human through
    [nextPlayerMove] or by the computer through [nextComputerMove] with any
    strategy, returns a well-formed board with exactly one Empty cell fewer
    and one more cell of the mover; the cells of the other player are
    counted as before. *)
Theorem moves_keep_board_well_formed (board : Board) :
  wf_board board ->
  (forall inputs board' rest text,
     nextPlayerMove inputs board = Some (board', rest, text) ->
     wf_board board'
     /\ count_value board' EMPTY = count_value board EMPTY - 1
     /\ count_value board' USER = count_value board USER + 1
     /\ count_value board' COMPUTER = count_value board COMPUTER)
  /\ (forall rnd strategy fuel s board' s',
        nextComputerMove rnd strategy fuel board s = Some (board', s') ->
        wf_board board'
        /\ count_value board' EMPTY = count_value board EMPTY - 1
        /\ count_value board' COMPUTER = count_value board COMPUTER + 1
        /\ count_value board' USER = count_value board USER).
Proof.
  intros Hwf.
  assert (Htotal : forall b, wf_board b ->
            count_value b EMPTY + count_value b USER
            + count_value b COMPUTER = 9).
  { intros b Hb.
    assert (Hall : forallb (fun b0 => count_value b0 EMPTY
                                      + count_value b0 USER
                                      + count_value b0 COMPUTER =? 9)
                           all_boards = true) by (vm_compute; reflexivity).
    apply Z.eqb_eq. exact (by_enumeration _ Hall b Hb). }
  split.
  - intros inputs board' rest text Hrun.
    destruct (nextPlayerMove_loop_sound _ _ _ _ _ _ _ Hrun)
      as (skipped & col_c & r & c & _ & _ & _ & Hrc & He & -> & _).
    destruct (move_keeps_shape board USER r c Hwf (or_introl eq_refl)
                Hrc He) as (Hwf' & H0 & H1).
    pose proof (Htotal board Hwf). pose proof (Htotal _ Hwf').
    repeat split; try assumption. lia.
  - intros rnd strategy fuel s board' s' Hrun.
    assert (Hset : exists r c,
               in_range r c /\ get board r c = EMPTY
               /\ board' = set board r c COMPUTER).
    { unfold nextComputerMove in Hrun.
      destruct (strategy =? SMART);
        [now apply (ai_smart_sound rnd fuel board s board' s') |].
      destruct (strategy =? GENIOUS);
        [now apply (ai_genious_sound rnd fuel board s board' s') |].
      now apply (ai_random_sound rnd fuel board s board' s'). }
    destruct Hset as (r & c & Hrc & He & ->).
    destruct (move_keeps_shape board COMPUTER r c Hwf (or_intror eq_refl)
                Hrc He) as (Hwf' & H0 & H1).
    pose proof (Htotal board Hwf). pose proof (Htotal _ Hwf').
    repeat split; try assumption. lia.
Qed.

Lemma moves_keep_board_well_formed_witness :
  wf_board board_corners_taken
  /\ nextComputerMove rnd_sweep SMART 4 board_corners_taken 0
     = Some (set board_corners_taken 1 0 COMPUTER, 8%nat)
  /\ wf_board (set board_corners_taken 1 0 COMPUTER)
  /\ count_value (set board_corners_taken 1 0 COMPUTER) EMPTY
     = count_value board_corners_taken EMPTY - 1.
Proof.
  assert (Hwf : wf_board board_corners_taken) by reflexivity.
  assert (Hrun : nextComputerMove rnd_sweep SMART 4 board_corners_taken 0
                 = Some (set board_corners_taken 1 0 COMPUTER, 8%nat))
    by reflexivity.
  pose proof (proj2 (moves_keep_board_well_formed board_corners_taken Hwf)
                rnd_sweep SMART 4%nat 0%nat _ _ Hrun) as (Hwf' & H0 & _).
  split; [exact Hwf |]. split; [exact Hrun |].
  split; [exact Hwf' | exact H0].
Defined.
